(** * hys-manage-web: the ProTable request adapter and the image upload dialog

    A shallow embedding of [src/utils/proTableRequest.ts] and of the
    confirm / cancel / file-type logic of [src/components/ImageUpload/index.tsx],
    with the properties of their specification stated over it. *)

From Stdlib Require Import ZArith QArith Bool Ascii String List DecimalString.
From Stdlib Require Import Floats.SpecFloat.
From stdpp Require Import base option list gmap strings fin_maps.

Local Open Scope Z_scope.
Local Open Scope string_scope.

(* ===================================================================== *)
(** ** JavaScript values                                                  *)
(* ===================================================================== *)

(** A JavaScript number is an IEEE 754 binary64 value; [spec_float] is the
    Standard Library's inductive description of such values (signed zeros,
    infinities, NaN, and finite [(-1)^s * m * 2^e]). *)
Definition number := spec_float.

Definition prec : Z := 53.
Definition emax : Z := 1024.

(** The binary64 value of an integer literal such as [0], [2] or [-1]. *)
Definition num (z : Z) : number := binary_normalize prec emax z 0 false.

(** The binary64 value of [m * 2^e], e.g. [1.5 = 3 * 2^-1]. *)
Definition num_scaled (m e : Z) : number := binary_normalize prec emax m e false.

Set Warnings "-register-all".

(** The payloads the adapter sees: JSON data (as parsed from a backend
    response) together with [undefined].  Objects are finite maps from
    property names to values. *)
Inductive value : Type :=
  | VUndefined
  | VNull
  | VBool (b : bool)
  | VNumber (n : number)
  | VString (s : string)
  | VArray (xs : list value)
  | VObject (o : gmap string value).

(** What a [throw] carries: the engine's own [TypeError] (reading a property
    of [null] or [undefined]), or whatever the callee raised or rejected
    with. *)
Inductive error : Type :=
  | TypeError
  | Raised (reason : value).

(** Completion of an expression or a block: a value, or a pending [throw]. *)
Inductive completion (A : Type) : Type :=
  | Normal (a : A)
  | Throw (e : error).
Arguments Normal {A} a.
Arguments Throw {A} e.

(** A settled promise. *)
Inductive promise (A : Type) : Type :=
  | Fulfilled (a : A)
  | Rejected (e : error).
Arguments Fulfilled {A} a.
Arguments Rejected {A} e.

(** *** Operators on values *)

(** [typeof v] *)
Definition typeof (v : value) : string :=
  match v with
  | VUndefined => "undefined"
  | VNull => "object"
  | VBool _ => "boolean"
  | VNumber _ => "number"
  | VString _ => "string"
  | VArray _ => "object"
  | VObject _ => "object"
  end.

(** [v == null] *)
Definition loosely_null (v : value) : bool :=
  match v with
  | VUndefined | VNull => true
  | _ => false
  end.

(** ToBoolean: [undefined], [null], [false], [+0], [-0], [NaN] and the empty
    string are falsy; everything else, arrays and objects included, is
    truthy. *)
Definition truthy (v : value) : bool :=
  match v with
  | VUndefined | VNull => false
  | VBool b => b
  | VNumber (S754_zero _) | VNumber S754_nan => false
  | VNumber _ => true
  | VString s => negb (String.eqb s "")
  | VArray _ | VObject _ => true
  end.

(** [a || b] *)
Definition js_or (a b : value) : value := if truthy a then a else b.

(** [a ?? b] *)
Definition js_coalesce (a b : value) : value := if loosely_null a then b else a.

(** [Array.isArray(v)] *)
Definition isArray (v : value) : bool :=
  match v with
  | VArray _ => true
  | _ => false
  end.

(** [s || d] for an optional string setting: [undefined] and [''] give [d]. *)
Definition str_or (s : option string) (d : string) : string :=
  match s with
  | Some EmptyString | None => d
  | Some s' => s'
  end.

(** *** Property lookup *)

Definition digit_of (c : ascii) : option nat :=
  let n := nat_of_ascii c in
  if (48 <=? n)%nat && (n <=? 57)%nat then Some (n - 48)%nat else None.

Fixpoint digits_value (acc : nat) (s : string) : option nat :=
  match s with
  | EmptyString => Some acc
  | String c s' =>
      match digit_of c with
      | Some d => digits_value (10 * acc + d) s'
      | None => None
      end
  end.

(** A property name is an array index when it is the canonical decimal
    spelling of a natural number: ["0"], ["7"], ["12"], but not ["01"]. *)
Definition array_index (key : string) : option nat :=
  match key with
  | EmptyString => None
  | String "0" EmptyString => Some 0%nat
  | String "0" _ => None
  | _ => digits_value 0 key
  end.

(** [v[key]] for a [v] that is not [null] or [undefined]: own properties of
    objects; elements and [length] of arrays; [undefined] otherwise.
    Members inherited from a prototype ([constructor], [toString], [map],
    ...) and the index properties of strings are not part of this model:
    the adapter only reads [data], [success] and the keys of its dotted
    paths out of JSON data. *)
Definition get (v : value) (key : string) : value :=
  match v with
  | VObject o => default VUndefined (o !! key)
  | VArray xs =>
      match array_index key with
      | Some i => default VUndefined (xs !! i)
      | None =>
          if String.eqb key "length"
          then VNumber (num (Z.of_nat (length xs)))
          else VUndefined
      end
  | _ => VUndefined
  end.

(** [v.key]: a [TypeError] on [null] and [undefined]. *)
Definition member (v : value) (key : string) : completion value :=
  if loosely_null v then Throw TypeError else Normal (get v key).

(** [s.split(sep)] for a one-character separator. *)
Fixpoint split (sep : ascii) (s : string) : list string :=
  match s with
  | EmptyString => [EmptyString]
  | String c s' =>
      if Ascii.eqb c sep then EmptyString :: split sep s'
      else match split sep s' with
           | w :: ws => String c w :: ws
           | [] => [String c EmptyString]
           end
  end.

(* ===================================================================== *)
(** ** src/utils/proTableRequest.ts                                       *)
(* ===================================================================== *)

(** The [for (const key of keys)] loop of [getValueByPath], with its early
    [return undefined]. *)
Fixpoint getValueByPath_loop (cur : value) (keys : list string) : value :=
  match keys with
  | [] => cur
  | key :: keys' =>
      if loosely_null cur || negb (String.eqb (typeof cur) "object")
      then VUndefined
      else getValueByPath_loop (get cur key) keys'
  end.

Definition getValueByPath (obj : value) (path : string) : value :=
  getValueByPath_loop obj (split "." path).

(** [ProTableParams]: an object with optional [current] and [pageSize] and
    arbitrary further fields. *)
Abbreviation ProTableParams := (gmap string value) (only parsing).

(** [ProTableResponse]: the object [{data, success, total}]. *)
Record ProTableResponse : Type := {
  data : value;
  success : value;
  total : value;
}.

(** [ApiFunction]: called with the backend parameters, it throws, or returns
    a promise that fulfils with the payload or rejects. *)
Definition ApiFunction : Type := value -> completion (promise value).

Record ParamTransformConfig : Type := {
  currentTo : option string;
  pageSizeTo : option string;
  (** the [transformParams] switch of [ParamTransformConfig] *)
  transformParams_enabled : option bool;
}.

Record ResponseTransformConfig : Type := {
  dataPath : option string;
  totalPath : option string;
}.

Record CreateProTableRequestOptions : Type := {
  paramTransform : option ParamTransformConfig;
  responseTransform : option ResponseTransformConfig;
  transformParams : option (ProTableParams -> completion value);
  transformResponse : option (value -> completion ProTableResponse);
}.

(** The merged configuration: both nested records are always present. *)
Record Config : Type := {
  cfg_paramTransform : ParamTransformConfig;
  cfg_responseTransform : ResponseTransformConfig;
  cfg_transformParams : option (ProTableParams -> completion value);
  cfg_transformResponse : option (value -> completion ProTableResponse);
}.

(** [{...defaults, ...given}] on one optional field. *)
Definition spread {A : Type} (defaults given : option A) : option A :=
  match given with
  | Some a => Some a
  | None => defaults
  end.

Definition default_paramTransform : ParamTransformConfig :=
  {| currentTo := Some "page";
     pageSizeTo := Some "per";
     transformParams_enabled := Some true |}.

Definition default_responseTransform : ResponseTransformConfig :=
  {| dataPath := Some "data.list";
     totalPath := Some "data.total" |}.

(** [options = {}] *)
Definition no_options : CreateProTableRequestOptions :=
  {| paramTransform := None;
     responseTransform := None;
     transformParams := None;
     transformResponse := None |}.

Definition merge_paramTransform (given : option ParamTransformConfig)
  : ParamTransformConfig :=
  match given with
  | None => default_paramTransform
  | Some g =>
      {| currentTo := spread (currentTo default_paramTransform) (currentTo g);
         pageSizeTo := spread (pageSizeTo default_paramTransform) (pageSizeTo g);
         transformParams_enabled :=
           spread (transformParams_enabled default_paramTransform)
                  (transformParams_enabled g) |}
  end.

Definition merge_responseTransform (given : option ResponseTransformConfig)
  : ResponseTransformConfig :=
  match given with
  | None => default_responseTransform
  | Some g =>
      {| dataPath := spread (dataPath default_responseTransform) (dataPath g);
         totalPath := spread (totalPath default_responseTransform) (totalPath g) |}
  end.

(** The [config] object built at the top of [createProTableRequest]. *)
Definition merge_options (options : CreateProTableRequestOptions) : Config :=
  {| cfg_paramTransform := merge_paramTransform (paramTransform options);
     cfg_responseTransform := merge_responseTransform (responseTransform options);
     cfg_transformParams := spread None (transformParams options);
     cfg_transformResponse := spread None (transformResponse options) |}.

(** *** Effects *)

(** What the code does to the outside besides returning: the adapter calls
    the backend and writes to the console; the upload dialog shows an error
    message and calls the [onChange] and [onSuccess] props. *)
Inductive event : Type :=
  | ApiCall (apiParams : value)
  | ConsoleError (label : string) (e : error)
  | MessageError (text : string)
  | OnChange (url : value)
  | OnSuccess (url : value).

(** A computation: the events it performed and how it completed. *)
Record run (A : Type) : Type := Run {
  trace : list event;
  outcome : completion A;
}.
Arguments Run {A} trace outcome.
Arguments trace {A} r.
Arguments outcome {A} r.

Definition pure {A : Type} (a : A) : run A := Run [] (Normal a).

Definition lift {A : Type} (c : completion A) : run A := Run [] c.

Definition bind {A B : Type} (m : run A) (k : A -> run B) : run B :=
  match outcome m with
  | Normal a => let r := k a in Run (trace m ++ trace r) (outcome r)
  | Throw e => Run (trace m) (Throw e)
  end.

Notation "'let*' x ':=' m 'in' k" := (bind m (fun x => k))
  (at level 10, x name, m at level 100, k at level 200).

(** [try { body } catch (error) { handler }] *)
Definition try_catch {A : Type} (body : run A) (handler : error -> run A) : run A :=
  match outcome body with
  | Normal a => body
  | Throw e => let r := handler e in Run (trace body ++ trace r) (outcome r)
  end.

(** [await apiFunction(apiParams)] *)
Definition await_call (apiFunction : ApiFunction) (apiParams : value) : run value :=
  Run [ApiCall apiParams]
      match apiFunction apiParams with
      | Normal (Fulfilled response) => Normal response
      | Normal (Rejected e) => Throw e
      | Throw e => Throw e
      end.

Definition console_error (label : string) (e : error) : run unit :=
  Run [ConsoleError label e] (Normal tt).

(** An [async] function settles its promise with the completion of its
    body. *)
Record settled_run (A : Type) : Type := Settled {
  events : list event;
  settled : promise A;
}.
Arguments Settled {A} events settled.
Arguments events {A} s.
Arguments settled {A} s.

Definition async {A : Type} (body : run A) : settled_run A :=
  Settled (trace body)
          match outcome body with
          | Normal a => Fulfilled a
          | Throw e => Rejected e
          end.

(** *** createProTableRequest *)

(** The default parameter transform:
    [const { current, pageSize, ...restParams } = params] followed by
    [{ ...restParams, [currentTo || 'page']: current,
       [pageSizeTo || 'per']: pageSize }]. *)
Definition default_transform_params (pt : ParamTransformConfig)
    (params : ProTableParams) : gmap string value :=
  let current := default VUndefined (params !! "current") in
  let pageSize := default VUndefined (params !! "pageSize") in
  let restParams := delete "pageSize" (delete "current" params) in
  <[str_or (pageSizeTo pt) "per" := pageSize]>
    (<[str_or (currentTo pt) "page" := current]> restParams).

(** The three-way choice of [apiParams]. *)
Definition transform_params (config : Config) (params : ProTableParams)
  : completion value :=
  match cfg_transformParams config with
  | Some custom => custom params
  | None =>
      match transformParams_enabled (cfg_paramTransform config) with
      | Some false => Normal (VObject params)
      | _ => Normal (VObject (default_transform_params (cfg_paramTransform config) params))
      end
  end.

(** The default response transform. *)
Definition default_transform_response (rt : ResponseTransformConfig)
    (response : value) : completion ProTableResponse :=
  match member response "data" with
  | Throw e => Throw e
  | Normal responseData =>
      let data := js_or (getValueByPath response (str_or (dataPath rt) "data.list"))
                        (VArray []) in
      let total := js_or (getValueByPath response (str_or (totalPath rt) "data.total"))
                         (VNumber (num 0)) in
      match member response "success" with
      | Throw e => Throw e
      | Normal response_success =>
          Normal {| data := if isArray data then data else VArray [];
                    success := js_coalesce response_success (VBool true);
                    total := if String.eqb (typeof total) "number"
                             then total else VNumber (num 0) |}
      end
  end.

Definition transform_response (config : Config) (response : value)
  : completion ProTableResponse :=
  match cfg_transformResponse config with
  | Some custom => custom response
  | None => default_transform_response (cfg_responseTransform config) response
  end.

(** The object returned from the [catch] block. *)
Definition failure_response : ProTableResponse :=
  {| data := VArray []; success := VBool false; total := VNumber (num 0) |}.

(** The request function built by [createProTableRequest].  The [sort] and
    [filter] arguments are never read by the body and are left out.  The
    API function and the options are taken as they are typed: the promise
    settles and the custom transforms return values; [runtime_request]
    below lifts both restrictions. *)
Definition try_block (config : Config) (apiFunction : ApiFunction)
    (params : ProTableParams) : run ProTableResponse :=
  let* apiParams := lift (transform_params config params) in
  let* response := await_call apiFunction apiParams in
  lift (transform_response config response).

Definition catch_block (error : error) : run ProTableResponse :=
  let* _ := console_error "ProTable request error:" error in
  pure failure_response.

Definition createProTableRequest (apiFunction : ApiFunction)
    (options : CreateProTableRequestOptions) (params : ProTableParams)
  : settled_run ProTableResponse :=
  let config := merge_options options in
  async (try_catch (try_block config apiFunction params) catch_block).

Definition defaultProTableRequest (apiFunction : ApiFunction)
    (params : ProTableParams) : settled_run ProTableResponse :=
  createProTableRequest apiFunction no_options params.

(** *** Vocabulary of the specification *)

(** A valid pagination request: [current >= 1] and [pageSize > 0]. *)
Definition valid_pagination (params : ProTableParams) : bool :=
  match params !! "current", params !! "pageSize" with
  | Some (VNumber c), Some (VNumber p) => SFleb (num 1) c && SFltb (num 0) p
  | _, _ => false
  end.

(** An indexable structure: an object or an array. *)
Definition indexable (v : value) : bool :=
  match v with
  | VArray _ | VObject _ => true
  | _ => false
  end.

(** One step of sequential property lookup: nothing once an intermediate
    value was absent or not indexable. *)
Definition spec_lookup_step (acc : option value) (key : string) : option value :=
  match acc with
  | Some v => if indexable v then Some (get v key) else None
  | None => None
  end.

(** Path resolution as the specification words it: look the keys up one
    after the other, [undefined] when the chain breaks. *)
Definition spec_resolve_path (obj : value) (keys : list string) : value :=
  default VUndefined (fold_left spec_lookup_step keys (Some obj)).

(** The payload has no [data] object to read the envelope from. *)
Definition lacks_envelope (response : value) : bool :=
  match response with
  | VObject o =>
      match o !! "data" with
      | Some (VObject _) => false
      | _ => true
      end
  | _ => true
  end.

(** A number that is a non-negative integer: [+0], [-0], or a positive
    finite [m * 2^e] without a fractional part. *)
Definition nonneg_integer (v : value) : bool :=
  match v with
  | VNumber (S754_zero _) => true
  | VNumber (S754_finite false m e) =>
      (0 <=? e)%Z || (Z.pos m mod 2 ^ (- e) =? 0)%Z
  | _ => false
  end.

(** The backend parameters of a request under the default options. *)
Definition default_apiParams (params : ProTableParams) : value :=
  VObject (default_transform_params default_paramTransform params).

(** Sample data. *)
Definition sample_request : gmap string value :=
  <["current" := VNumber (num 2)]>
    (<["pageSize" := VNumber (num 15)]>
       (<["name" := VString "cardio"]> ∅)).

Definition sample_backend_params : gmap string value :=
  <["page" := VNumber (num 2)]>
    (<["per" := VNumber (num 15)]>
       (<["name" := VString "cardio"]> ∅)).

Definition request_with_page_field : gmap string value :=
  <["current" := VNumber (num 2)]>
    (<["pageSize" := VNumber (num 15)]>
       (<["page" := VNumber (num 99)]> ∅)).

Definition envelope (list_ total_ : value) : value :=
  VObject (<["success" := VBool true]>
             (<["data" := VObject (<["list" := list_]> (<["total" := total_]> ∅))]> ∅)).

Definition returns (response : value) : ApiFunction :=
  fun _ => Normal (Fulfilled response).

Definition rejects (reason : value) : ApiFunction :=
  fun _ => Normal (Rejected (Raised reason)).

(* ===================================================================== *)
(** ** src/components/ImageUpload/index.tsx                               *)
(* ===================================================================== *)

(** *** String helpers (ASCII) *)

Definition lower_ascii (c : ascii) : ascii :=
  let n := nat_of_ascii c in
  if (65 <=? n)%nat && (n <=? 90)%nat then ascii_of_nat (n + 32) else c.

(** [s.toLowerCase()] for strings of ASCII characters: the letters [A] to
    [Z] are mapped, every other character is kept.  The cased letters
    outside ASCII, which the code's [toLowerCase] maps as well, are not
    modelled; statements that depend on letter case are made for ASCII
    names. *)
Fixpoint toLowerCase (s : string) : string :=
  match s with
  | EmptyString => EmptyString
  | String c s' => String (lower_ascii c) (toLowerCase s')
  end.

Fixpoint lastIndexOf_from (c : ascii) (s : string) (i found : Z) : Z :=
  match s with
  | EmptyString => found
  | String a s' => lastIndexOf_from c s' (i + 1) (if Ascii.eqb a c then i else found)
  end.

(** [s.lastIndexOf(c)]: [-1] when [c] does not occur. *)
Definition lastIndexOf (c : ascii) (s : string) : Z := lastIndexOf_from c s 0 (-1).

Fixpoint string_drop (n : nat) (s : string) : string :=
  match n, s with
  | O, _ => s
  | S n', String _ s' => string_drop n' s'
  | S _, EmptyString => EmptyString
  end.

(** [s.substring(start)] *)
Definition substring_from (start : Z) (s : string) : string :=
  string_drop (Z.to_nat start) s.

(** *** File-type validation (the same function in all three versions of
    the component) *)

(** The fields of a browser [File] that the validation reads; [type] is the
    empty string when the browser reports no MIME type. *)
Record File : Type := {
  name : string;
  type : string;
}.

Definition default_allowedExtensions : list string := ["png"; "jpeg"; "jpg"; "svg"].

Definition mimeTypeMap : gmap string (list string) :=
  <["png" := ["image/png"]]>
    (<["jpeg" := ["image/jpeg"; "image/jpg"]]>
       (<["jpg" := ["image/jpeg"; "image/jpg"]]>
          (<["svg" := ["image/svg+xml"]]> ∅))).

(** The two members an object literal inherits under an all-lowercase name;
    [mimeTypeMap[ext]] finds them when [ext] is not a key of the table. *)
Definition inherited_lowercase_names : list string := ["constructor"; "__proto__"].

(** The extension [validateFileType] derives from the file name: what
    follows the last dot of the lowercased name, if there is a dot. *)
Definition fileExtension (file : File) : option string :=
  let fileName := toLowerCase (name file) in
  let lastDotIndex := lastIndexOf "." fileName in
  if (lastDotIndex =? -1)%Z then None
  else Some (substring_from (lastDotIndex + 1) fileName).

(** [allowedExtensions.some((ext) => ext.toLowerCase() === fileExtension)] *)
Definition isValidExtension (allowedExtensions : list string) (ext : string) : bool :=
  existsb (fun allowed => String.eqb (toLowerCase allowed) ext) allowedExtensions.

(** The text of the error message is not modelled beyond its parameter. *)
Definition format_message (allowedExtensions : list string) : string :=
  String.concat ", " allowedExtensions.

Definition reject (allowedExtensions : list string) : run bool :=
  Run [MessageError (format_message allowedExtensions)] (Normal false).

(** The MIME check made when [file.type] is not empty.  For an extension
    that names an inherited member, [mimeTypeMap[ext] || []] is not an
    array and calling [some] on it raises a [TypeError]. *)
Definition check_mime (allowedExtensions : list string) (ext mime : string) : run bool :=
  match mimeTypeMap !! ext with
  | None =>
      if existsb (String.eqb ext) inherited_lowercase_names
      then lift (Throw TypeError)
      else
        let allowedMimeTypes : list string := [] in
        if existsb (String.eqb mime) allowedMimeTypes
        then pure true else reject allowedExtensions
  | Some allowedMimeTypes =>
      if existsb (String.eqb mime) allowedMimeTypes
      then pure true else reject allowedExtensions
  end.

Definition validateFileType (allowedExtensions : list string) (file : File) : run bool :=
  match fileExtension file with
  | None => reject allowedExtensions
  | Some ext =>
      if negb (isValidExtension allowedExtensions ext) then reject allowedExtensions
      else if negb (String.eqb (type file) "")
           then check_mime allowedExtensions ext (type file)
           else pure true
  end.

(** *** Dialog state *)

(** Modelled from the spec: the status of an upload entry (the type
    [UploadFile] comes from the UI library and is not part of the
    sources); the code compares it with ['done'] and ['uploading']. *)
Inductive UploadFileStatus : Type :=
  | Pending
  | Uploading
  | Done
  | Error.

Definition status_eqb (a b : UploadFileStatus) : bool :=
  match a, b with
  | Pending, Pending | Uploading, Uploading | Done, Done | Error, Error => true
  | _, _ => false
  end.

Record UploadFile : Type := {
  uid : string;
  status : UploadFileStatus;
  url : option string;
}.

(** [file.status === 'done'] *)
Definition is_done (file : UploadFile) : bool := status_eqb (status file) Done.

(** [file.url] used as a condition: set and not empty. *)
Definition has_url (file : UploadFile) : bool :=
  match url file with
  | Some u => negb (String.eqb u "")
  | None => false
  end.

(** [file.status === 'done' && file.url] *)
Definition uploaded (file : UploadFile) : bool :=
  status_eqb (status file) Done && has_url file.

(** [fileList.some(file => file.status === 'uploading')] *)
Definition isUploading (fileList : list UploadFile) : bool :=
  existsb (fun file => status_eqb (status file) Uploading) fileList.

(** [callback?.(v)]: a call when the parent passed the prop. *)
Definition call_if (given : bool) (e : event) : list event :=
  if given then [e] else [].

(** [xs.slice(0, end_)] *)
Definition slice0 {A : Type} (xs : list A) (end_ : Z) : list A :=
  if (end_ <? 0)%Z
  then take (Z.to_nat (Z.max (Z.of_nat (length xs) + end_) 0)) xs
  else take (Z.to_nat end_) xs.

Definition entry (uid : string) (status : UploadFileStatus) (url : option string)
  : UploadFile := {| uid := uid; status := status; url := url |}.

(** [xs.filter((_, i) => keep(i))], the callback reading the index only;
    [i] is the index of the head of [xs]. *)
Fixpoint filter_index {A : Type} (keep : nat -> bool) (i : nat) (xs : list A) : list A :=
  match xs with
  | [] => []
  | x :: xs' =>
      if keep i then x :: filter_index keep (S i) xs'
      else filter_index keep (S i) xs'
  end.

(** The [value] prop: absent, one URL, or an array of URLs. *)
Inductive UrlValue : Type :=
  | NoValue
  | OneUrl (u : string)
  | ManyUrls (us : list string).

(** The JavaScript value a callback receives for it. *)
Definition UrlValue_to_value (v : UrlValue) : value :=
  match v with
  | NoValue => VUndefined
  | OneUrl u => VString u
  | ManyUrls us => VArray (VString <$> us)
  end.

(** [initialUrls], also the body of the effect that follows [value]:
    [[]] when [!value], the array itself, or the one URL in an array. *)
Definition initialUrls (v : UrlValue) : list string :=
  match v with
  | NoValue => []
  | OneUrl u => if String.eqb u "" then [] else [u]
  | ManyUrls us => us
  end.

(** [`${n}`] for a whole number. *)
Definition show (n : Z) : string := NilZero.string_of_int (Z.to_int n).

(** [file.size / 1024 / 1024 < maxSize].  A file size is a whole number of
    bytes and [maxSize] is taken in whole megabytes; on such operands (below
    [2^53]) the two divisions by a power of two and the comparison are
    exact in binary64, so they are computed over the rationals. *)
Definition isValidSize (size maxSize : Z) : bool :=
  negb (Qle_bool (inject_Z maxSize) (inject_Z size / 1024 / 1024)).

Definition too_many_message (maxCount : Z) : string :=
  "最多只能上传 " ++ show maxCount ++ " 张图片，无法继续上传".

Definition too_large_message (maxSize : Z) : string :=
  "图片大小不能超过 " ++ show maxSize ++ "MB".

(** What [beforeUpload] returns: [Upload.LIST_IGNORE] or [true]. *)
Inductive BeforeUpload : Type :=
  | LIST_IGNORE
  | Proceed.

(** The size and file-type gates, the whole of [beforeUpload] in the two
    single-image versions. *)
Definition size_and_type_gates (maxSize : Z) (allowedExtensions : list string)
    (size : Z) (file : File) : run BeforeUpload :=
  if negb (isValidSize size maxSize)
  then Run [MessageError (too_large_message maxSize)] (Normal LIST_IGNORE)
  else
    let* valid := validateFileType allowedExtensions file in
    if negb valid then pure LIST_IGNORE else pure Proceed.

(** An entry as the upload control reports it in [info.fileList]: the
    fields of the entry and, when present, [file.response.url]. *)
Record ChangedFile : Type := {
  changed : UploadFile;
  response_url : option string;
}.

(** The [map] callback of [onChange]: a [done] entry whose response carries
    a non-empty url gets that url. *)
Definition with_response_url (file : ChangedFile) : UploadFile :=
  match response_url file with
  | Some u =>
      if is_done (changed file) && negb (String.eqb u "")
      then {| uid := uid (changed file);
              status := status (changed file);
              url := Some u |}
      else changed file
  | None => changed file
  end.

(** The URL an entry brings to Confirm, in the words of the component's
    comments: a successfully uploaded file with a URL. *)
Definition uploaded_url (file : UploadFile) : option string :=
  match status file, url file with
  | Done, Some u => if String.eqb u "" then None else Some u
  | _, _ => None
  end.

(** The URLs of the uploaded entries, in the order of the list. *)
Definition uploaded_urls (fileList : list UploadFile) : list string :=
  omap uploaded_url fileList.

(** For an entry reported by the upload control: the url of its response
    when the entry is [done] and that url is not empty, else its own. *)
Definition response_or_own_url (file : ChangedFile) : option string :=
  match status (changed file), response_url file with
  | Done, Some u => if String.eqb u "" then uploaded_url (changed file) else Some u
  | _, _ => uploaded_url (changed file)
  end.

(** The current component (first version in the file): one to [maxCount]
    images. *)
Module MultiImage.

Record Props : Type := {
  maxCount : Z;
  (** whether the parent passed [onChange] / [onSuccess] *)
  has_onChange : bool;
  has_onSuccess : bool;
}.

Record State : Type := {
  modalVisible : bool;
  fileList : list UploadFile;
  imageUrls : list string;
}.

(** Each handler reads the state of the current render and returns the
    calls it made with the state after its [set...] calls. *)
Definition handleConfirm (props : Props) (s : State) : list event * State :=
  let newUploadedFiles :=
    map (fun file => default EmptyString (url file))
        (List.filter uploaded (fileList s)) in
  if (0 <? length newUploadedFiles)%nat then
    let allUrls := slice0 (imageUrls s ++ newUploadedFiles)%list (maxCount props) in
    let result :=
      if (maxCount props =? 1)%Z
      then default VUndefined (VString <$> (allUrls !! 0%nat))
      else VArray (VString <$> allUrls) in
    ((call_if (has_onChange props) (OnChange result)
        ++ call_if (has_onSuccess props) (OnSuccess result))%list,
     {| modalVisible := false; fileList := []; imageUrls := allUrls |})
  else ([], s).

Definition handleCancel (s : State) : list event * State :=
  if negb (isUploading (fileList s))
  then ([], {| modalVisible := false; fileList := []; imageUrls := imageUrls s |})
  else ([], s).

(** The effect that follows the [value] prop. *)
Definition syncValue (v : UrlValue) (s : State) : State :=
  {| modalVisible := modalVisible s;
     fileList := fileList s;
     imageUrls := initialUrls v |}.

(** [index] is [None] for a call without argument. *)
Definition handleRemove (props : Props) (index : option nat) (s : State)
  : list event * State :=
  if (maxCount props =? 1)%Z then
    ((call_if (has_onChange props) (OnChange (VString ""))
        ++ call_if (has_onSuccess props) (OnSuccess (VString "")))%list,
     {| modalVisible := modalVisible s; fileList := fileList s; imageUrls := [] |})
  else
    match index with
    | Some index =>
        let newUrls :=
          filter_index (fun i => negb (Nat.eqb i index)) 0 (imageUrls s) in
        ((call_if (has_onChange props) (OnChange (VArray (VString <$> newUrls)))
            ++ call_if (has_onSuccess props) (OnSuccess (VArray (VString <$> newUrls))))%list,
         {| modalVisible := modalVisible s; fileList := fileList s; imageUrls := newUrls |})
    | None => ([], s)
    end.

(** [fileList.filter(f => f.status === 'uploading' || f.status === 'done').length] *)
Definition pendingUploadCount (s : State) : nat :=
  length (List.filter
            (fun f => status_eqb (status f) Uploading || status_eqb (status f) Done)
            (fileList s)).

(** [uploadProps.beforeUpload]; [size] is [file.size], and [maxSize] and
    [allowedExtensions] are the props of these names. *)
Definition beforeUpload (props : Props) (maxSize : Z) (allowedExtensions : list string)
    (s : State) (size : Z) (file : File) (currentFileList : list File)
  : run BeforeUpload :=
  let currentUploadedCount := length (imageUrls s) in
  let newFilesCount := length currentFileList in
  if (maxCount props
        <? Z.of_nat (currentUploadedCount + pendingUploadCount s + newFilesCount))%Z
  then Run [MessageError (too_many_message (maxCount props))] (Normal LIST_IGNORE)
  else size_and_type_gates maxSize allowedExtensions size file.

(** [uploadProps.onChange] *)
Definition onChange (info_fileList : list ChangedFile) (s : State) : State :=
  {| modalVisible := modalVisible s;
     fileList := map with_response_url info_fileList;
     imageUrls := imageUrls s |}.

(** [uploadProps.onRemove] *)
Definition onRemove (file : UploadFile) (s : State) : State :=
  {| modalVisible := modalVisible s;
     fileList := List.filter (fun item => negb (String.eqb (uid item) (uid file)))
                             (fileList s);
     imageUrls := imageUrls s |}.

End MultiImage.

(** The earlier single-image component with a confirm button (third version
    in the file). *)
Module SingleImage.

Record Props : Type := {
  has_onChange : bool;
  has_onSuccess : bool;
}.

Record State : Type := {
  modalVisible : bool;
  fileList : list UploadFile;
  imageUrl : option string;
}.

Definition handleConfirm (props : Props) (s : State) : list event * State :=
  let uploadedFile := List.find uploaded (fileList s) in
  match uploadedFile with
  | Some file =>
      match url file with
      | Some u =>
          if negb (String.eqb u "") then
            ((call_if (has_onChange props) (OnChange (VString u))
                ++ call_if (has_onSuccess props) (OnSuccess (VString u)))%list,
             {| modalVisible := false; fileList := []; imageUrl := Some u |})
          else ([], s)
      | None => ([], s)
      end
  | None => ([], s)
  end.

Definition handleCancel (s : State) : list event * State :=
  if negb (isUploading (fileList s))
  then ([], {| modalVisible := false; fileList := []; imageUrl := imageUrl s |})
  else ([], s).

Definition handleRemove (props : Props) (s : State) : list event * State :=
  ((call_if (has_onChange props) (OnChange (VString ""))
      ++ call_if (has_onSuccess props) (OnSuccess (VString "")))%list,
   {| modalVisible := modalVisible s; fileList := fileList s; imageUrl := None |}).

Definition beforeUpload (maxSize : Z) (allowedExtensions : list string)
    (size : Z) (file : File) : run BeforeUpload :=
  size_and_type_gates maxSize allowedExtensions size file.

Definition onChange (info_fileList : list ChangedFile) (s : State) : State :=
  {| modalVisible := modalVisible s;
     fileList := map with_response_url info_fileList;
     imageUrl := imageUrl s |}.

Definition onRemove (s : State) : State :=
  {| modalVisible := modalVisible s; fileList := []; imageUrl := imageUrl s |}.

End SingleImage.

(** *** handleUpload *)

(** [response.data]: the upload service declares a string (a path), the
    second version of the component reads an object with a [url] field. *)
Inductive UploadData : Type :=
  | NoData
  | DataString (path : string)
  | DataObject (data_url : option string).

(** The payload of [uploadApi]: [{success?, data?, errorMessage?}]. *)
Record UploadResponse : Type := {
  upload_success : option bool;
  upload_data : UploadData;
  upload_errorMessage : option string;
}.

(** How the promise of [uploadApi] settles. *)
Inductive UploadOutcome : Type :=
  | UploadResolves (response : UploadResponse)
  | UploadRejects (reason : value).

(** Which callbacks the upload control passed in [options]. *)
Record RequestOption : Type := {
  has_onUploadSuccess : bool;
  has_onError : bool;
  has_onProgress : bool;
}.

(** The calls an upload makes; the [console.log] lines are left out. *)
Inductive upload_event : Type :=
  | Progress (percent : Z)
  | ShowSuccess (text : string)
  | ShowError (text : value)
  | Changed (url : string)
  | Succeeded (url : string)
  | UploadSucceeded (response : UploadResponse) (url : option string)
  | UploadFailed (error : value).

Definition when {A : Type} (given : bool) (a : A) : list A :=
  if given then [a] else [].

(** [new Error(message)], as far as the handler reads it: its [message]. *)
Definition new_Error (message : string) : value :=
  VObject (<["message" := VString message]> ∅).

(** [v?.key] *)
Definition optional_get (v : value) (key : string) : value :=
  if loosely_null v then VUndefined else get v key.

(** [error?.errorMessage || error?.message || '上传失败，请重试'] *)
Definition error_text (error : value) : value :=
  js_or (js_or (optional_get error "errorMessage") (optional_get error "message"))
        (VString "上传失败，请重试").

(** [response.success] as a condition. *)
Definition success_truthy (response : UploadResponse) : bool :=
  match upload_success response with
  | Some b => b
  | None => false
  end.

(** [API_URL + response.data] when [response.data] is truthy. *)
Definition prefixed_url (API_URL : string) (d : UploadData) : option string :=
  match d with
  | NoData => None
  | DataString path => if String.eqb path "" then None else Some (API_URL ++ path)
  | DataObject _ => Some (API_URL ++ "[object Object]")
  end.

(** [response.data?.url] when truthy. *)
Definition data_url_of (d : UploadData) : option string :=
  match d with
  | DataObject (Some u) => if String.eqb u "" then None else Some u
  | _ => None
  end.

(** The [catch] block shared by all versions. *)
Definition upload_catch (opts : RequestOption) (error : value) : list upload_event :=
  ([ShowError (error_text error)] ++ when (has_onError opts) (UploadFailed error))%list.

(** [handleUpload] of the first and third version; [API_URL] is a global
    that the sources do not define. *)
Definition handleUpload (API_URL : string) (opts : RequestOption)
    (outcome : UploadOutcome) : list upload_event :=
  (when (has_onProgress opts) (Progress 0) ++
   match outcome with
   | UploadResolves response =>
       match (if success_truthy response
              then prefixed_url API_URL (upload_data response) else None) with
       | Some url =>
           when (has_onProgress opts) (Progress 100)
           ++ when (has_onUploadSuccess opts) (UploadSucceeded response (Some url))
       | None =>
           upload_catch opts
             (new_Error (str_or (upload_errorMessage response) "上传失败"))
       end
   | UploadRejects reason => upload_catch opts reason
   end)%list.

(** The second version in the file: no Confirm button, a successful upload
    is committed at once. *)
Module AutoCommit.

Record Props : Type := {
  has_onChange : bool;
  has_onSuccess : bool;
}.

Record State : Type := {
  modalVisible : bool;
  fileList : list UploadFile;
  uploading : bool;
  imageUrl : option string;
}.

(** [setUploading(true)], before the call is awaited. *)
Definition handleUpload_start (s : State) : State :=
  {| modalVisible := modalVisible s;
     fileList := fileList s;
     uploading := true;
     imageUrl := imageUrl s |}.

(** The rest of [handleUpload], run on the state at the time the call
    settles: the [try] body after [await], the [catch] block, and
    [finally]. *)
Definition handleUpload_settle (props : Props) (opts : RequestOption)
    (outcome : UploadOutcome) (s : State) : list upload_event * State :=
  match outcome with
  | UploadResolves response =>
      match (if success_truthy response
             then data_url_of (upload_data response) else None) with
      | Some url =>
          (([ShowSuccess "上传成功"]
              ++ when (has_onChange props) (Changed url)
              ++ when (has_onSuccess props) (Succeeded url)
              ++ when (has_onUploadSuccess opts) (UploadSucceeded response None))%list,
           {| modalVisible := false;
              fileList := [];
              uploading := false;
              imageUrl := Some url |})
      | None =>
          (upload_catch opts
             (new_Error (str_or (upload_errorMessage response) "上传失败")),
           {| modalVisible := modalVisible s;
              fileList := fileList s;
              uploading := false;
              imageUrl := imageUrl s |})
      end
  | UploadRejects reason =>
      (upload_catch opts reason,
       {| modalVisible := modalVisible s;
          fileList := fileList s;
          uploading := false;
          imageUrl := imageUrl s |})
  end.

Definition handleRemove (props : Props) (s : State) : list event * State :=
  ((call_if (has_onChange props) (OnChange (VString ""))
      ++ call_if (has_onSuccess props) (OnSuccess (VString "")))%list,
   {| modalVisible := modalVisible s;
      fileList := fileList s;
      uploading := uploading s;
      imageUrl := None |}).

End AutoCommit.

(** Sample dialogs. *)
Definition single_mode : MultiImage.Props :=
  {| MultiImage.maxCount := 1;
     MultiImage.has_onChange := true;
     MultiImage.has_onSuccess := true |}.

Definition both_callbacks : SingleImage.Props :=
  {| SingleImage.has_onChange := true; SingleImage.has_onSuccess := true |}.

Definition multi_dialog (fileList : list UploadFile) (imageUrls : list string)
  : MultiImage.State :=
  {| MultiImage.modalVisible := true;
     MultiImage.fileList := fileList;
     MultiImage.imageUrls := imageUrls |}.

Definition single_dialog (fileList : list UploadFile) (imageUrl : option string)
  : SingleImage.State :=
  {| SingleImage.modalVisible := true;
     SingleImage.fileList := fileList;
     SingleImage.imageUrl := imageUrl |}.

(** *** The request function with promises as they are at run time

    [createProTableRequest] above takes the API function and the options as
    they are typed: the promise of the API function settles, and a custom
    [transformResponse] returns a response object.  At run time the promise
    may stay pending, and the transform may be an [async] function, whose
    promise the request function returns without awaiting it. *)

(** A promise over time: it settles, or it stays pending for ever. *)
Inductive eventually (A : Type) : Type :=
  | Settles (p : promise A)
  | StaysPending.
Arguments Settles {A} p.
Arguments StaysPending {A}.

(** What a custom [transformResponse] hands to [return]: a response object,
    or a promise of one. *)
Inductive returned : Type :=
  | Plain (r : ProTableResponse)
  | Thenable (p : eventually ProTableResponse).

Definition RuntimeApiFunction : Type := value -> completion (eventually value).

Record RuntimeOptions : Type := {
  rt_paramTransform : option ParamTransformConfig;
  rt_responseTransform : option ResponseTransformConfig;
  rt_transformParams : option (ProTableParams -> completion value);
  rt_transformResponse : option (value -> completion returned);
}.

(** The merged configuration, apart from the custom response transform. *)
Definition runtime_config (options : RuntimeOptions) : Config :=
  {| cfg_paramTransform := merge_paramTransform (rt_paramTransform options);
     cfg_responseTransform := merge_responseTransform (rt_responseTransform options);
     cfg_transformParams := spread None (rt_transformParams options);
     cfg_transformResponse := None |}.

(** The [catch] block, after the events [before]. *)
Definition caught (before : list event) (e : error)
  : list event * eventually ProTableResponse :=
  ((before ++ [ConsoleError "ProTable request error:" e])%list,
   Settles (Fulfilled failure_response)).

(** The request function: its events and what becomes of its promise.
    [return config.transformResponse(response)] resolves the promise of the
    [async] function with what the transform returned; when that is a
    promise, the [try] block has been left by the time it settles. *)
Definition runtime_request (apiFunction : RuntimeApiFunction)
    (options : RuntimeOptions) (params : ProTableParams)
  : list event * eventually ProTableResponse :=
  let config := runtime_config options in
  match transform_params config params with
  | Throw e => caught [] e
  | Normal apiParams =>
      match apiFunction apiParams with
      | Throw e => caught [ApiCall apiParams] e
      | Normal (Settles (Rejected e)) => caught [ApiCall apiParams] e
      | Normal StaysPending => ([ApiCall apiParams], StaysPending)
      | Normal (Settles (Fulfilled response)) =>
          match rt_transformResponse options with
          | Some custom =>
              match custom response with
              | Throw e => caught [ApiCall apiParams] e
              | Normal (Plain r) => ([ApiCall apiParams], Settles (Fulfilled r))
              | Normal (Thenable p) => ([ApiCall apiParams], p)
              end
          | None =>
              match default_transform_response (cfg_responseTransform config) response with
              | Throw e => caught [ApiCall apiParams] e
              | Normal r => ([ApiCall apiParams], Settles (Fulfilled r))
              end
          end
      end
  end.

(** The typed API function and options, seen at run time. *)
Definition settling (apiFunction : ApiFunction) : RuntimeApiFunction :=
  fun apiParams =>
    match apiFunction apiParams with
    | Normal p => Normal (Settles p)
    | Throw e => Throw e
    end.

Definition synchronous (options : CreateProTableRequestOptions) : RuntimeOptions :=
  {| rt_paramTransform := paramTransform options;
     rt_responseTransform := responseTransform options;
     rt_transformParams := transformParams options;
     rt_transformResponse :=
       match transformResponse options with
       | Some custom =>
           Some (fun response =>
                   match custom response with
                   | Normal r => Normal (Plain r)
                   | Throw e => Throw e
                   end)
       | None => None
       end |}.

(** Sample: an [async] response transform whose promise rejects. *)
Definition rejecting_transform_options : RuntimeOptions :=
  {| rt_paramTransform := None;
     rt_responseTransform := None;
     rt_transformParams := None;
     rt_transformResponse :=
       Some (fun _ => Normal (Thenable (Settles (Rejected (Raised (VString "bad rows")))))) |}.

(** *** ASCII names *)

(** The character [c] occurs in [s]. *)
Fixpoint includes (c : ascii) (s : string) : bool :=
  match s with
  | EmptyString => false
  | String a s' => Ascii.eqb a c || includes c s'
  end.

(** Every character of [s] is an ASCII character.  On such strings
    [toLowerCase] above is the [toLowerCase] of the code; other cased
    letters are outside of it. *)
Fixpoint ascii_only (s : string) : bool :=
  match s with
  | EmptyString => true
  | String a s' => (nat_of_ascii a <? 128)%nat && ascii_only s'
  end.

(** Sample options: the names of the usage example in the source, a
    switched-off transform, and custom transforms. *)
Definition named_options (currentTo pageSizeTo : option string)
  : CreateProTableRequestOptions :=
  {| paramTransform :=
       Some {| currentTo := currentTo;
               pageSizeTo := pageSizeTo;
               transformParams_enabled := None |};
     responseTransform := None;
     transformParams := None;
     transformResponse := None |}.

Definition untransformed_options : CreateProTableRequestOptions :=
  {| paramTransform :=
       Some {| currentTo := None; pageSizeTo := None;
               transformParams_enabled := Some false |};
     responseTransform := None;
     transformParams := None;
     transformResponse := None |}.

Definition custom_params_options (custom : gmap string value -> completion value)
  : CreateProTableRequestOptions :=
  {| paramTransform := None;
     responseTransform := None;
     transformParams := Some custom;
     transformResponse := None |}.

Definition custom_response_options (custom : value -> completion ProTableResponse)
  : CreateProTableRequestOptions :=
  {| paramTransform := None;
     responseTransform := None;
     transformParams := None;
     transformResponse := Some custom |}.

Definition items_options : CreateProTableRequestOptions :=
  {| paramTransform := None;
     responseTransform :=
       Some {| dataPath := Some "data.items"; totalPath := Some "data.count" |};
     transformParams := None;
     transformResponse := None |}.

(* ===================================================================== *)
(** ** Properties of the request adapter                                  *)
(* ===================================================================== *)

Section Adapter.

Implicit Types (apiFunction : ApiFunction) (params : gmap string value).
Implicit Types (response : value) (options : CreateProTableRequestOptions).

Lemma settled_async_try_catch {A} (body : run A) (handler : error -> run A) :
  settled (async (try_catch body handler)) =
    match outcome body with
    | Normal a => Fulfilled a
    | Throw e =>
        match outcome (handler e) with
        | Normal a => Fulfilled a
        | Throw e' => Rejected e'
        end
    end.
Proof.
  unfold async, try_catch; simpl.
  destruct (outcome body) eqn:Hb; simpl; [rewrite Hb|]; done.
Qed.

(** What the request settles with, read off the [try] block. *)
Lemma request_settled apiFunction options params :
  settled (createProTableRequest apiFunction options params) =
    match outcome (try_block (merge_options options) apiFunction params) with
    | Normal r => Fulfilled r
    | Throw _ => Fulfilled failure_response
    end.
Proof.
  unfold createProTableRequest. rewrite settled_async_try_catch.
  destruct (outcome _); done.
Qed.

(** The request function never rejects. *)
Lemma request_never_rejects apiFunction options params :
  ∃ r, settled (createProTableRequest apiFunction options params) = Fulfilled r.
Proof. rewrite request_settled. destruct (outcome _); eauto. Qed.

(** The [try] block once the parameters are built. *)
Lemma try_block_outcome config apiFunction params apiParams :
  transform_params config params = Normal apiParams →
  outcome (try_block config apiFunction params) =
    match apiFunction apiParams with
    | Normal (Fulfilled response) => transform_response config response
    | Normal (Rejected e) => Throw e
    | Throw e => Throw e
    end.
Proof.
  intros Hp. unfold try_block, bind, lift, await_call. simpl. rewrite Hp. simpl.
  destruct (apiFunction apiParams) as [[response|e]|e]; done.
Qed.

Lemma try_block_outcome_default apiFunction params :
  outcome (try_block (merge_options no_options) apiFunction params) =
    match apiFunction (default_apiParams params) with
    | Normal (Fulfilled response) =>
        default_transform_response default_responseTransform response
    | Normal (Rejected e) => Throw e
    | Throw e => Throw e
    end.
Proof. by rewrite (try_block_outcome _ _ _ (default_apiParams params)). Qed.

(** The default response transform, case by case on the payload. *)
Lemma default_transform_response_nullish response :
  loosely_null response = true →
  default_transform_response default_responseTransform response = Throw TypeError.
Proof. intros H. unfold default_transform_response, member. by rewrite H. Qed.

Lemma default_transform_response_value response :
  loosely_null response = false →
  default_transform_response default_responseTransform response =
    Normal
      {| data :=
           (let d := js_or (getValueByPath response "data.list") (VArray []) in
            if isArray d then d else VArray []);
         success := js_coalesce (get response "success") (VBool true);
         total :=
           (let t := js_or (getValueByPath response "data.total") (VNumber (num 0)) in
            if String.eqb (typeof t) "number" then t else VNumber (num 0)) |}.
Proof. intros H. unfold default_transform_response, member. by rewrite H. Qed.

Lemma adapted_data_is_array (d : value) :
  isArray (if isArray d then d else VArray []) = true.
Proof. by destruct d. Qed.

Lemma adapted_total_is_number (t : value) :
  typeof (if String.eqb (typeof t) "number" then t else VNumber (num 0)) = "number".
Proof. by destruct t. Qed.

Lemma adapted_data_default (v : value) :
  isArray v = false →
  (let d := js_or v (VArray []) in if isArray d then d else VArray []) = VArray [].
Proof. unfold js_or. destruct v; try done; by destruct (truthy _). Qed.

Lemma adapted_total_default (v : value) :
  typeof v ≠ "number" →
  (let t := js_or v (VNumber (num 0)) in
   if String.eqb (typeof t) "number" then t else VNumber (num 0)) = VNumber (num 0).
Proof. unfold js_or. destruct v; try done; by destruct (truthy _). Qed.

Lemma spec_lookup_broken (keys : list string) :
  fold_left spec_lookup_step keys None = None.
Proof. by induction keys. Qed.

Lemma loop_guard_indexable (cur : value) :
  loosely_null cur || negb (String.eqb (typeof cur) "object") = negb (indexable cur).
Proof. by destruct cur. Qed.

Lemma getValueByPath_loop_spec (keys : list string) :
  ∀ cur, getValueByPath_loop cur keys = spec_resolve_path cur keys.
Proof.
  unfold spec_resolve_path.
  induction keys as [|key keys IH]; intros cur; simpl; [done|].
  rewrite loop_guard_indexable.
  destruct (indexable cur); simpl.
  - apply IH.
  - by rewrite spec_lookup_broken.
Qed.

(** Without a [data] object both default paths resolve to [undefined]. *)
Lemma lacks_envelope_paths response :
  lacks_envelope response = true →
  getValueByPath response "data.list" = VUndefined
  ∧ getValueByPath response "data.total" = VUndefined.
Proof.
  intros H. unfold getValueByPath. simpl.
  destruct response as [| | | | |xs|o]; try done.
  simpl in *. by destruct (o !! "data") as [[| | | | |ys|o']|].
Qed.

(** The well-formed envelope [{success: true, data: {list: [7], total: 1}}]
    is adapted to [{data: [7], success: true, total: 1}]. *)
Example adapts_well_formed_envelope :
  settled (defaultProTableRequest
             (returns (envelope (VArray [VNumber (num 7)]) (VNumber (num 1))))
             sample_request)
    = Fulfilled {| data := VArray [VNumber (num 7)];
                   success := VBool true;
                   total := VNumber (num 1) |}.
Proof. by vm_compute. Qed.

(** C1. If the awaited backend call throws or rejects, the request function
    resolves, for every API function, every option set and every request
    whose parameters were built, to exactly
    [{data: [], success: false, total: 0}]. *)
Theorem C1_backend_failure_gives_failure_response
    apiFunction options params (apiParams : value) (e : error) :
  transform_params (merge_options options) params = Normal apiParams →
  apiFunction apiParams = Throw e ∨ apiFunction apiParams = Normal (Rejected e) →
  settled (createProTableRequest apiFunction options params) =
    Fulfilled {| data := VArray []; success := VBool false; total := VNumber (num 0) |}.
Proof.
  intros Hp Hfail. rewrite request_settled, (try_block_outcome _ _ _ _ Hp).
  by destruct Hfail as [-> | ->].
Qed.

Lemma C1_witness :
  transform_params (merge_options no_options) sample_request
    = Normal (default_apiParams sample_request)
  ∧ settled (createProTableRequest (rejects (VString "timeout")) no_options sample_request)
    = Fulfilled {| data := VArray []; success := VBool false; total := VNumber (num 0) |}.
Proof.
  split; [reflexivity|].
  apply (C1_backend_failure_gives_failure_response
           (rejects (VString "timeout")) no_options sample_request
           (default_apiParams sample_request) (Raised (VString "timeout"))).
  - reflexivity.
  - right. reflexivity.
Defined.

Lemma getValueByPath_spec (obj : value) (path : string) :
  getValueByPath obj path = spec_resolve_path obj (split "." path).
Proof. apply getValueByPath_loop_spec. Qed.

(** The backend is called first, with the transformed parameters. *)
Lemma request_calls_backend apiFunction params :
  hd_error (events (createProTableRequest apiFunction no_options params))
    = Some (ApiCall (default_apiParams params)).
Proof.
  unfold createProTableRequest, async, try_catch, try_block, bind, lift, await_call.
  simpl. destruct (apiFunction _) as [[response|e]|e]; simpl; [|done..].
  by destruct (transform_response _ response).
Qed.

(** C2 (amended). For every pagination request with [current >= 1] and
    [pageSize > 0], the default parameter transform sends the backend an
    object in which [current] is renamed to [page] and [pageSize] to [per]
    (the request's own [page] or [per] field, if any, is overwritten), and
    every other field whose name is not [page] or [per] is passed through
    unchanged; [{current: 2, pageSize: 15, name: 'cardio'}] gives
    [{page: 2, per: 15, name: 'cardio'}]. *)
Theorem C2_default_transform_renames_and_preserves :
  (∀ apiFunction params,
      valid_pagination params = true →
      let sent := default_transform_params default_paramTransform params in
      hd_error (events (createProTableRequest apiFunction no_options params))
        = Some (ApiCall (VObject sent))
      ∧ sent !! "page" = params !! "current"
      ∧ sent !! "per" = params !! "pageSize"
      ∧ sent !! "current" = None
      ∧ sent !! "pageSize" = None
      ∧ ∀ k : string,
          k ≠ "current" → k ≠ "pageSize" → k ≠ "page" → k ≠ "per" →
          sent !! k = params !! k)
  ∧ default_transform_params default_paramTransform sample_request
      = sample_backend_params.
Proof.
  split; [|by vm_compute].
  intros apiFunction params Hvalid sent.
  unfold valid_pagination in Hvalid.
  destruct (params !! "current") as [c|] eqn:Hc; [|done].
  destruct (params !! "pageSize") as [p|] eqn:Hp; [|by destruct c].
  split; [apply request_calls_backend|].
  subst sent. unfold default_transform_params. rewrite Hc, Hp. simpl.
  repeat split.
  - by rewrite lookup_insert_ne, lookup_insert_eq.
  - by rewrite lookup_insert_eq.
  - rewrite !lookup_insert_ne by done.
    by rewrite lookup_delete_ne, lookup_delete_eq.
  - rewrite !lookup_insert_ne by done. by rewrite lookup_delete_eq.
  - intros k ? ? ? ?.
    rewrite !lookup_insert_ne by done. by rewrite !lookup_delete_ne.
Qed.

Lemma C2_witness :
  valid_pagination sample_request = true
  ∧ default_transform_params default_paramTransform sample_request !! "name"
      = sample_request !! "name".
Proof.
  split; [reflexivity|].
  apply (proj1 C2_default_transform_renames_and_preserves
           (returns VNull) sample_request); [reflexivity| | | |]; discriminate.
Defined.

(** C2 as stated fails: a request that itself carries a [page] field is
    valid, yet that field reaches the backend with the value of
    [current]. *)
Lemma C2_counterexample :
  valid_pagination request_with_page_field = true
  ∧ request_with_page_field !! "page" = Some (VNumber (num 99))
  ∧ default_transform_params default_paramTransform request_with_page_field !! "page"
      = Some (VNumber (num 2))
  ∧ hd_error (events (createProTableRequest (returns VNull) no_options
                        request_with_page_field))
      = Some (ApiCall (VObject (<["page" := VNumber (num 2)]>
                                  (<["per" := VNumber (num 15)]> ∅)))).
Proof. by vm_compute. Qed.

(** C3 (amended). For every payload the backend call returns without
    throwing that has no [data] object (for example an empty object), the
    adapter returns [data: []] and [total: 0]; [success] is [false] only
    when the payload is [null] or [undefined], and otherwise is the
    payload's own [success] field, [true] when that is absent: an empty
    object gives [{data: [], success: true, total: 0}]. *)
Theorem C3_malformed_payload apiFunction params response :
  apiFunction (default_apiParams params) = Normal (Fulfilled response) →
  lacks_envelope response = true →
  settled (createProTableRequest apiFunction no_options params) =
    Fulfilled
      {| data := VArray [];
         success := if loosely_null response then VBool false
                    else js_coalesce (get response "success") (VBool true);
         total := VNumber (num 0) |}.
Proof.
  intros Hcall Hmal.
  rewrite request_settled, try_block_outcome_default, Hcall.
  destruct (loosely_null response) eqn:Hnull.
  - by rewrite default_transform_response_nullish.
  - rewrite default_transform_response_value by done.
    by destruct (lacks_envelope_paths response Hmal) as [-> ->].
Qed.

Lemma C3_witness :
  lacks_envelope (VObject ∅) = true
  ∧ settled (createProTableRequest (returns (VObject ∅)) no_options sample_request) =
      Fulfilled {| data := VArray []; success := VBool true; total := VNumber (num 0) |}.
Proof.
  split; [reflexivity|].
  rewrite (C3_malformed_payload (returns (VObject ∅)) sample_request (VObject ∅));
    reflexivity.
Defined.

(** C3 as stated fails: the empty object comes back with [success: true]. *)
Lemma C3_counterexample :
  settled (createProTableRequest (returns (VObject ∅)) no_options sample_request)
    = Fulfilled {| data := VArray []; success := VBool true; total := VNumber (num 0) |}
  ∧ settled (createProTableRequest (returns (VObject ∅)) no_options sample_request)
    ≠ Fulfilled {| data := VArray []; success := VBool false; total := VNumber (num 0) |}.
Proof. split; [by vm_compute|]. vm_compute. discriminate. Qed.

(** C4 (amended). For every backend response, the result of the default
    response transform satisfies: [data] is an array (empty on failure or
    when [data.list] is not an array); [total] is a number, zero on
    failure or when the field is missing or not a number, and otherwise the
    upstream number itself, whatever its sign or fraction; [success] is
    [true] when the upstream [success] field is absent and [false]
    whenever adaptation throws. *)
Theorem C4_default_response_invariant apiFunction params :
  ∃ r : ProTableResponse,
    settled (createProTableRequest apiFunction no_options params) = Fulfilled r
    ∧ isArray (data r) = true
    ∧ typeof (total r) = "number"
    ∧ (∀ e, outcome (try_block (merge_options no_options) apiFunction params) = Throw e →
         data r = VArray [] ∧ success r = VBool false ∧ total r = VNumber (num 0))
    ∧ (∀ response,
         apiFunction (default_apiParams params) = Normal (Fulfilled response) →
         loosely_null response = false →
         (isArray (getValueByPath response "data.list") = false → data r = VArray [])
         ∧ (typeof (getValueByPath response "data.total") ≠ "number" →
              total r = VNumber (num 0))
         ∧ (∀ n, getValueByPath response "data.total" = VNumber n →
              total r = if truthy (VNumber n) then VNumber n else VNumber (num 0))
         ∧ (get response "success" = VUndefined → success r = VBool true)).
Proof.
  pose proof (request_settled apiFunction no_options params) as Hs.
  destruct (outcome (try_block _ apiFunction params)) as [r|e] eqn:Hout.
  - exists r. split; [done|].
    rewrite try_block_outcome_default in Hout.
    destruct (apiFunction (default_apiParams params)) as [[response|?]|?]; try done.
    destruct (loosely_null response) eqn:Hnull.
    { by rewrite default_transform_response_nullish in Hout. }
    rewrite default_transform_response_value in Hout by done.
    injection Hout as <-. simpl.
    split; [apply adapted_data_is_array|].
    split; [apply adapted_total_is_number|].
    split; [done|].
    intros response' [= <-] _. repeat split.
    + apply adapted_data_default.
    + apply adapted_total_default.
    + intros n ->. unfold js_or. by destruct n.
    + by intros ->.
  - exists failure_response. do 4 (split; [done|]).
    intros response Hcall Hnull.
    rewrite try_block_outcome_default, Hcall in Hout.
    by rewrite default_transform_response_value in Hout.
Qed.

Lemma C4_witness :
  ∃ r : ProTableResponse,
    settled (createProTableRequest
               (returns (envelope (VArray [VNumber (num 7)]) (VNumber (num 1))))
               no_options sample_request) = Fulfilled r
    ∧ isArray (data r) = true
    ∧ typeof (total r) = "number".
Proof.
  destruct (C4_default_response_invariant
              (returns (envelope (VArray [VNumber (num 7)]) (VNumber (num 1))))
              sample_request) as (r & Hr & Hd & Ht & _).
  exists r. repeat split; assumption.
Defined.

(** C4 as stated fails: a negative upstream total is passed on, and so is a
    fractional one. *)
Lemma C4_counterexample :
  (settled (createProTableRequest
              (returns (envelope (VArray []) (VNumber (num (-1)))))
              no_options sample_request)
     = Fulfilled {| data := VArray []; success := VBool true;
                    total := VNumber (num (-1)) |}
   ∧ nonneg_integer (VNumber (num (-1))) = false)
  ∧ (settled (createProTableRequest
                (returns (envelope (VArray []) (VNumber (num_scaled 3 (-1)))))
                no_options sample_request)
       = Fulfilled {| data := VArray []; success := VBool true;
                      total := VNumber (num_scaled 3 (-1)) |}
     ∧ nonneg_integer (VNumber (num_scaled 3 (-1))) = false).
Proof. by vm_compute. Qed.

(** C6. Under the default transform, a response in which [data.total] is
    absent is adapted to [total = 0]; a response in which [data.list] is
    absent or not an array is adapted to [data = []]; and [getValueByPath]
    is the sequential property lookup along the dotted path, [undefined]
    as soon as an intermediate value is absent or not indexable. *)
Theorem C6_missing_fields_and_path_resolution :
  (∀ apiFunction params response,
      apiFunction (default_apiParams params) = Normal (Fulfilled response) →
      spec_resolve_path response ["data"; "total"] = VUndefined →
      ∃ r, settled (createProTableRequest apiFunction no_options params) = Fulfilled r
           ∧ total r = VNumber (num 0))
  ∧ (∀ apiFunction params response,
      apiFunction (default_apiParams params) = Normal (Fulfilled response) →
      isArray (spec_resolve_path response ["data"; "list"]) = false →
      ∃ r, settled (createProTableRequest apiFunction no_options params) = Fulfilled r
           ∧ data r = VArray [])
  ∧ (∀ (obj : value) (path : string),
      getValueByPath obj path = spec_resolve_path obj (split "." path)).
Proof.
  split; [|split]; [| |apply getValueByPath_spec].
  - intros apiFunction params response Hcall Habsent.
    rewrite request_settled, try_block_outcome_default, Hcall.
    destruct (loosely_null response) eqn:Hnull.
    + rewrite default_transform_response_nullish by done. by eexists.
    + rewrite default_transform_response_value by done.
      eexists; split; [done|]. simpl.
      rewrite getValueByPath_spec.
      change (split "." "data.total") with ["data"; "total"].
      by rewrite Habsent.
  - intros apiFunction params response Hcall Hnot.
    rewrite request_settled, try_block_outcome_default, Hcall.
    destruct (loosely_null response) eqn:Hnull.
    + rewrite default_transform_response_nullish by done. by eexists.
    + rewrite default_transform_response_value by done.
      eexists; split; [done|]. simpl.
      rewrite getValueByPath_spec.
      change (split "." "data.list") with ["data"; "list"].
      by apply adapted_data_default.
Qed.

Lemma C6_witness :
  spec_resolve_path (VObject ∅) ["data"; "total"] = VUndefined
  ∧ ∃ r, settled (createProTableRequest (returns (VObject ∅)) no_options sample_request)
           = Fulfilled r
         ∧ total r = VNumber (num 0).
Proof.
  split; [reflexivity|].
  apply (proj1 C6_missing_fields_and_path_resolution
           (returns (VObject ∅)) sample_request (VObject ∅)); reflexivity.
Defined.

End Adapter.

(* ===================================================================== *)
(** ** Properties of the upload dialog                                    *)
(* ===================================================================== *)

Section FileType.

Implicit Types (allowedExtensions mimes : list string) (file : File).
Implicit Types (ext mime : string).

Lemma existsb_eqb_elem_of mime mimes :
  existsb (String.eqb mime) mimes = bool_decide (mime ∈ mimes).
Proof.
  induction mimes as [|m mimes IH].
  - by rewrite bool_decide_eq_false_2 by apply not_elem_of_nil.
  - cbn [existsb]. rewrite IH.
    destruct (String.eqb_spec mime m) as [->|Hne]; cbn [orb].
    + by rewrite bool_decide_eq_true_2 by left.
    + apply bool_decide_ext. rewrite elem_of_cons.
      split; [by right | by intros [?|?]].
Qed.

Lemma validateFileType_past_extension_gate allowedExtensions file ext :
  fileExtension file = Some ext →
  isValidExtension allowedExtensions ext = true →
  validateFileType allowedExtensions file =
    if negb (String.eqb (type file) "")
    then check_mime allowedExtensions ext (type file)
    else pure true.
Proof. intros Hext Hvalid. unfold validateFileType. by rewrite Hext, Hvalid. Qed.

(** Every extension the default allowed set lets through has a row in the
    table. *)
Lemma default_extensions_in_table ext :
  isValidExtension default_allowedExtensions ext = true →
  is_Some (mimeTypeMap !! ext).
Proof.
  unfold isValidExtension. intros (allowed & Hin & Heq)%existsb_exists.
  apply String.eqb_eq in Heq. subst ext.
  repeat (destruct Hin as [<-|Hin]; [vm_compute; by eexists|]). destruct Hin.
Qed.

(** The MIME gate, row by row.  For a file let through the extension gate:
    without a reported type the gate is skipped and the file passes; with a
    reported type and an extension that has a row in the table
    [png -> [image/png]], [jpeg/jpg -> [image/jpeg, image/jpg]],
    [svg -> [image/svg+xml]], the file is rejected exactly when the type is
    not in that row; with a reported type and an extension that has no row,
    and is not the name of an inherited member, the file is rejected. *)
Lemma mime_gate_by_table allowedExtensions file ext :
  fileExtension file = Some ext →
  isValidExtension allowedExtensions ext = true →
  (type file = "" →
     outcome (validateFileType allowedExtensions file) = Normal true)
  ∧ (type file ≠ "" → ∀ mimes, mimeTypeMap !! ext = Some mimes →
       outcome (validateFileType allowedExtensions file)
         = Normal (bool_decide (type file ∈ mimes)))
  ∧ (type file ≠ "" → mimeTypeMap !! ext = None →
     ext ∉ inherited_lowercase_names →
       outcome (validateFileType allowedExtensions file) = Normal false)
  ∧ (mimeTypeMap !! "png" = Some ["image/png"]
     ∧ mimeTypeMap !! "jpeg" = Some ["image/jpeg"; "image/jpg"]
     ∧ mimeTypeMap !! "jpg" = Some ["image/jpeg"; "image/jpg"]
     ∧ mimeTypeMap !! "svg" = Some ["image/svg+xml"]
     ∧ dom mimeTypeMap = {[ "png"; "jpeg"; "jpg"; "svg" ]}).
Proof.
  intros Hext Hvalid.
  rewrite (validateFileType_past_extension_gate _ _ _ Hext Hvalid).
  split; [|split; [|split]].
  - by intros ->.
  - intros Htype mimes Hrow.
    apply String.eqb_neq in Htype. rewrite Htype. cbn [negb].
    unfold check_mime. rewrite Hrow, existsb_eqb_elem_of.
    by destruct (bool_decide _).
  - intros Htype Hrow Hown.
    apply String.eqb_neq in Htype. rewrite Htype. cbn [negb].
    unfold check_mime. rewrite Hrow.
    rewrite existsb_eqb_elem_of, bool_decide_eq_false_2 by done.
    done.
  - repeat split; by vm_compute.
Qed.

Lemma mime_gate_by_table_witness :
  fileExtension {| name := "Logo.PNG"; type := "image/jpeg" |} = Some "png"
  ∧ isValidExtension default_allowedExtensions "png" = true
  ∧ outcome (validateFileType default_allowedExtensions
               {| name := "Logo.PNG"; type := "image/jpeg" |}) = Normal false.
Proof.
  split; [reflexivity|]. split; [reflexivity|].
  destruct (mime_gate_by_table default_allowedExtensions
              {| name := "Logo.PNG"; type := "image/jpeg" |} "png"
              eq_refl eq_refl) as (_ & Hrow & _).
  rewrite (Hrow ltac:(discriminate) ["image/png"] eq_refl).
  reflexivity.
Defined.

(** C5, where the code departs from it.  The claim lets the MIME gate
    reject a file only when its extension maps to a known set of MIME
    strings that lacks the reported type.  With [gif] as the one allowed
    extension, [anim.gif] passes the extension gate and [gif] has no row in
    the table; still the file reporting [image/gif] is rejected, with the
    message that only the allowed formats are supported, while the same
    file without a reported type passes.  An allowed extension named
    [constructor] does not even get a verdict: the lookup finds an
    inherited member and the validation throws. *)
Lemma C5_allowed_extension_without_row_is_rejected :
  let typed := {| name := "anim.gif"; type := "image/gif" |} in
  let untyped := {| name := "anim.gif"; type := "" |} in
  (fileExtension typed = Some "gif"
   ∧ isValidExtension ["gif"] "gif" = true
   ∧ mimeTypeMap !! "gif" = None
   ∧ validateFileType ["gif"] typed
       = Run [MessageError (format_message ["gif"])] (Normal false)
   ∧ validateFileType ["gif"] untyped = Run [] (Normal true))
  ∧ (isValidExtension ["constructor"] "constructor" = true
     ∧ outcome (validateFileType ["constructor"]
                  {| name := "a.constructor"; type := "image/png" |})
       = Throw TypeError).
Proof. by vm_compute. Qed.

End FileType.

Section Dialog.

Implicit Types (file : UploadFile) (fileList : list UploadFile).

Lemma status_eqb_eq (a b : UploadFileStatus) : status_eqb a b = true ↔ a = b.
Proof. by destruct a, b. Qed.

Lemma filter_uploaded fileList :
  List.filter uploaded fileList = List.filter has_url (List.filter is_done fileList).
Proof.
  induction fileList as [|file fileList IH]; [done|].
  cbn [List.filter]. unfold uploaded at 1, is_done at 1.
  destruct (status_eqb (status file) Done); cbn [andb List.filter]; [|done].
  destruct (has_url file); by rewrite IH.
Qed.

Lemma find_filter fileList :
  List.find uploaded fileList = head (List.filter uploaded fileList).
Proof.
  induction fileList as [|file fileList IH]; [done|].
  cbn [List.find List.filter]. by destruct (uploaded file).
Qed.

(** No [done] entry, or only [done] entries without a url: nothing counts
    as uploaded. *)
Lemma no_uploaded fileList :
  (∀ file, file ∈ fileList → status file = Done → has_url file = false) →
  List.filter uploaded fileList = [].
Proof.
  induction fileList as [|file fileList IH]; intros H; [done|].
  cbn [List.filter].
  assert (uploaded file = false) as ->.
  { unfold uploaded. destruct (status_eqb (status file) Done) eqn:Hs; [|done].
    apply status_eqb_eq in Hs. cbn [andb]. apply H; [left|done]. }
  apply IH. intros f Hf. apply H. by right.
Qed.

Lemma has_url_false file :
  has_url file = false ↔ url file = None ∨ url file = Some "".
Proof.
  unfold has_url. destruct (url file) as [u|]; [|by split; [left|]].
  destruct (String.eqb_spec u "") as [->|Hne]; cbn [negb].
  - by split; [right|].
  - split; [done|]. intros [?|[= ?]]; done.
Qed.

Lemma has_url_true file u :
  url file = Some u → u ≠ "" → has_url file = true.
Proof.
  intros Hu Hne. unfold has_url. rewrite Hu.
  by apply String.eqb_neq in Hne as ->.
Qed.

Lemma confirm_multi_noop (props : MultiImage.Props) (s : MultiImage.State) :
  List.filter uploaded (MultiImage.fileList s) = [] →
  MultiImage.handleConfirm props s = ([], s).
Proof. intros H. unfold MultiImage.handleConfirm. by rewrite H. Qed.

Lemma confirm_single_noop (props : SingleImage.Props) (s : SingleImage.State) :
  List.filter uploaded (SingleImage.fileList s) = [] →
  SingleImage.handleConfirm props s = ([], s).
Proof.
  intros H. unfold SingleImage.handleConfirm. by rewrite find_filter, H.
Qed.

Lemma isUploading_true fileList :
  isUploading fileList = true ↔ ∃ file, file ∈ fileList ∧ status file = Uploading.
Proof.
  unfold isUploading. rewrite existsb_exists.
  split; intros (file & Hin & Hs); exists file.
  - by rewrite list_elem_of_In, <- status_eqb_eq.
  - by rewrite <- list_elem_of_In, status_eqb_eq.
Qed.

Lemma isUploading_false fileList :
  isUploading fileList = false ↔ ∀ file, file ∈ fileList → status file ≠ Uploading.
Proof.
  rewrite <- not_true_iff_false, isUploading_true.
  split.
  - intros Hno file Hin Hs. apply Hno. by exists file.
  - intros Hall (file & Hin & Hs). by apply (Hall file).
Qed.

(** C8. Pressing Confirm when no [fileList] entry has status [done] is a
    no-op in both versions of the dialog: no callback is invoked and the
    state (dialog open or not, committed value, [fileList]) is
    unchanged. *)
Theorem C8_confirm_without_done_is_noop :
  (∀ (props : MultiImage.Props) (s : MultiImage.State),
      (∀ file, file ∈ MultiImage.fileList s → status file ≠ Done) →
      MultiImage.handleConfirm props s = ([], s))
  ∧ (∀ (props : SingleImage.Props) (s : SingleImage.State),
      (∀ file, file ∈ SingleImage.fileList s → status file ≠ Done) →
      SingleImage.handleConfirm props s = ([], s)).
Proof.
  split; intros props s Hnone.
  - apply confirm_multi_noop, no_uploaded. intros file Hin Hs. by destruct (Hnone file).
  - apply confirm_single_noop, no_uploaded. intros file Hin Hs. by destruct (Hnone file).
Qed.

Lemma C8_witness :
  MultiImage.handleConfirm single_mode (multi_dialog [entry "rc-1" Error None] [])
    = ([], multi_dialog [entry "rc-1" Error None] []).
Proof.
  apply (proj1 C8_confirm_without_done_is_noop).
  intros file Hin. apply list_elem_of_singleton in Hin. subst file. discriminate.
Defined.

(** C7 (amended). In single-image mode ([maxCount = 1]) with no image
    committed yet, pressing Confirm when exactly one [fileList] entry has
    status [done], and that entry has a non-empty url, sets the committed
    value to that entry's URL as a bare string, invokes the
    [onChange] / [onSuccess] callbacks with it, clears [fileList] and
    closes the dialog.  (The earlier single-image version does so whatever
    was committed before.) *)
Theorem C7_confirm_single_image :
  (∀ (props : MultiImage.Props) (s : MultiImage.State) file (u : string),
      MultiImage.maxCount props = 1 →
      MultiImage.imageUrls s = [] →
      List.filter is_done (MultiImage.fileList s) = [file] →
      url file = Some u →
      u ≠ "" →
      MultiImage.handleConfirm props s =
        ((call_if (MultiImage.has_onChange props) (OnChange (VString u))
            ++ call_if (MultiImage.has_onSuccess props) (OnSuccess (VString u)))%list,
         {| MultiImage.modalVisible := false;
            MultiImage.fileList := [];
            MultiImage.imageUrls := [u] |}))
  ∧ (∀ (props : SingleImage.Props) (s : SingleImage.State) file (u : string),
      List.filter is_done (SingleImage.fileList s) = [file] →
      url file = Some u →
      u ≠ "" →
      SingleImage.handleConfirm props s =
        ((call_if (SingleImage.has_onChange props) (OnChange (VString u))
            ++ call_if (SingleImage.has_onSuccess props) (OnSuccess (VString u)))%list,
         {| SingleImage.modalVisible := false;
            SingleImage.fileList := [];
            SingleImage.imageUrl := Some u |})).
Proof.
  split.
  - intros props s file u Hmax Hnone Hone Hu Hne.
    unfold MultiImage.handleConfirm.
    rewrite filter_uploaded, Hone. cbn [List.filter].
    rewrite (has_url_true file u Hu Hne). cbn [map].
    rewrite Hmax, Hnone, Hu. reflexivity.
  - intros props s file u Hone Hu Hne.
    unfold SingleImage.handleConfirm.
    rewrite find_filter, filter_uploaded, Hone. cbn [List.filter].
    rewrite (has_url_true file u Hu Hne). cbn [head]. rewrite Hu.
    by apply String.eqb_neq in Hne as ->.
Qed.

Lemma C7_witness :
  MultiImage.handleConfirm single_mode
      (multi_dialog [entry "rc-1" Error None; entry "rc-2" Done (Some "/img/a.png")] [])
    = ([OnChange (VString "/img/a.png"); OnSuccess (VString "/img/a.png")],
       {| MultiImage.modalVisible := false;
          MultiImage.fileList := [];
          MultiImage.imageUrls := ["/img/a.png"] |}).
Proof.
  apply (proj1 C7_confirm_single_image single_mode
           (multi_dialog [entry "rc-1" Error None; entry "rc-2" Done (Some "/img/a.png")] [])
           (entry "rc-2" Done (Some "/img/a.png")) "/img/a.png");
    [reflexivity..|discriminate].
Defined.

(** C7 as stated fails in the current component: with an image already
    committed, Confirm in single-image mode reports the old URL, not the
    URL of the one [done] entry; and in both versions a [done] entry without
    a url leaves the dialog open with nothing committed. *)
Lemma C7_counterexample :
  (List.filter is_done [entry "rc-1" Done (Some "/img/new.png")]
     = [entry "rc-1" Done (Some "/img/new.png")]
   ∧ MultiImage.handleConfirm single_mode
         (multi_dialog [entry "rc-1" Done (Some "/img/new.png")] ["/img/old.png"])
       = ([OnChange (VString "/img/old.png"); OnSuccess (VString "/img/old.png")],
          {| MultiImage.modalVisible := false;
             MultiImage.fileList := [];
             MultiImage.imageUrls := ["/img/old.png"] |}))
  ∧ (List.filter is_done [entry "rc-1" Done None] = [entry "rc-1" Done None]
     ∧ MultiImage.handleConfirm single_mode (multi_dialog [entry "rc-1" Done None] [])
         = ([], multi_dialog [entry "rc-1" Done None] [])
     ∧ SingleImage.handleConfirm both_callbacks (single_dialog [entry "rc-1" Done None] None)
         = ([], single_dialog [entry "rc-1" Done None] None)).
Proof. by vm_compute. Qed.

(** C9. For every state of the dialog, in both versions: when no
    [fileList] entry has status [uploading], Cancel closes the dialog and
    empties [fileList], leaving the committed value as it was and calling
    nothing; when some entry has status [uploading], Cancel changes
    nothing; so the dialog is closed with an empty [fileList] after Cancel
    of an open dialog exactly when no entry was uploading. *)
Theorem C9_cancel_blocked_while_uploading :
  (∀ s : MultiImage.State,
      ((∀ file, file ∈ MultiImage.fileList s → status file ≠ Uploading) →
         MultiImage.handleCancel s =
           ([], {| MultiImage.modalVisible := false;
                   MultiImage.fileList := [];
                   MultiImage.imageUrls := MultiImage.imageUrls s |}))
      ∧ ((∃ file, file ∈ MultiImage.fileList s ∧ status file = Uploading) →
           MultiImage.handleCancel s = ([], s))
      ∧ (MultiImage.modalVisible s = true →
           (MultiImage.modalVisible (snd (MultiImage.handleCancel s)) = false
            ∧ MultiImage.fileList (snd (MultiImage.handleCancel s)) = [])
           ↔ (∀ file, file ∈ MultiImage.fileList s → status file ≠ Uploading)))
  ∧ (∀ s : SingleImage.State,
      ((∀ file, file ∈ SingleImage.fileList s → status file ≠ Uploading) →
         SingleImage.handleCancel s =
           ([], {| SingleImage.modalVisible := false;
                   SingleImage.fileList := [];
                   SingleImage.imageUrl := SingleImage.imageUrl s |}))
      ∧ ((∃ file, file ∈ SingleImage.fileList s ∧ status file = Uploading) →
           SingleImage.handleCancel s = ([], s))
      ∧ (SingleImage.modalVisible s = true →
           (SingleImage.modalVisible (snd (SingleImage.handleCancel s)) = false
            ∧ SingleImage.fileList (snd (SingleImage.handleCancel s)) = [])
           ↔ (∀ file, file ∈ SingleImage.fileList s → status file ≠ Uploading))).
Proof.
  split; intros s.
  - unfold MultiImage.handleCancel.
    destruct (isUploading (MultiImage.fileList s)) eqn:Hup; cbn [negb snd].
    + pose proof (proj1 (isUploading_true _) Hup) as Hsome.
      split; [|split].
      * intros Hnone. destruct Hsome as (file & Hin & Hs). by destruct (Hnone file).
      * done.
      * intros Hopen. split.
        -- intros [Hclosed _]. congruence.
        -- intros Hnone. destruct Hsome as (file & Hin & Hs). by destruct (Hnone file).
    + pose proof (proj1 (isUploading_false _) Hup) as Hnone.
      split; [|split].
      * done.
      * intros (file & Hin & Hs). by destruct (Hnone file).
      * done.
  - unfold SingleImage.handleCancel.
    destruct (isUploading (SingleImage.fileList s)) eqn:Hup; cbn [negb snd].
    + pose proof (proj1 (isUploading_true _) Hup) as Hsome.
      split; [|split].
      * intros Hnone. destruct Hsome as (file & Hin & Hs). by destruct (Hnone file).
      * done.
      * intros Hopen. split.
        -- intros [Hclosed _]. congruence.
        -- intros Hnone. destruct Hsome as (file & Hin & Hs). by destruct (Hnone file).
    + pose proof (proj1 (isUploading_false _) Hup) as Hnone.
      split; [|split].
      * done.
      * intros (file & Hin & Hs). by destruct (Hnone file).
      * done.
Qed.

Lemma C9_witness :
  MultiImage.handleCancel (multi_dialog [entry "rc-1" Uploading None] ["/img/a.png"])
    = ([], multi_dialog [entry "rc-1" Uploading None] ["/img/a.png"]).
Proof.
  apply (proj1 C9_cancel_blocked_while_uploading
           (multi_dialog [entry "rc-1" Uploading None] ["/img/a.png"])).
  exists (entry "rc-1" Uploading None). split; [left|reflexivity].
Defined.

(** Where the URLs collected by Confirm come from. *)
Lemma uploaded_url_origin fileList (u : string) :
  In u (map (fun file => default EmptyString (url file)) (List.filter uploaded fileList)) →
  ∃ file, file ∈ fileList ∧ status file = Done ∧ url file = Some u ∧ u ≠ "".
Proof.
  intros (file & Hu & Hin)%in_map_iff.
  apply filter_In in Hin as [Hin Hup].
  unfold uploaded in Hup. apply andb_true_iff in Hup as [Hs Hurl].
  apply status_eqb_eq in Hs.
  exists file. split; [by apply list_elem_of_In|]. split; [done|].
  unfold has_url in Hurl. destruct (url file) as [u'|]; [|done].
  cbn in Hu. subst u'. split; [done|].
  intros ->. done.
Qed.

Lemma slice0_subseteq {A} (xs : list A) (end_ : Z) : slice0 xs end_ ⊆ xs.
Proof. unfold slice0. destruct (end_ <? 0)%Z; apply subseteq_take. Qed.

(** C10. In both versions Confirm commits only [fileList] entries that have
    status [done] and a set, non-empty url: every URL of the committed
    value after Confirm was committed before or is the url of such an
    entry, and when every [done] entry lacks a url Confirm is a no-op
    (no callback, dialog and [fileList] unchanged) although [done]
    entries exist. *)
Theorem C10_confirm_commits_only_entries_with_url :
  (∀ (props : MultiImage.Props) (s : MultiImage.State) (u : string),
      u ∈ MultiImage.imageUrls (snd (MultiImage.handleConfirm props s)) →
      u ∈ MultiImage.imageUrls s
      ∨ ∃ file, file ∈ MultiImage.fileList s
                ∧ status file = Done ∧ url file = Some u ∧ u ≠ "")
  ∧ (∀ (props : MultiImage.Props) (s : MultiImage.State),
      (∀ file, file ∈ MultiImage.fileList s → status file = Done →
               url file = None ∨ url file = Some "") →
      MultiImage.handleConfirm props s = ([], s))
  ∧ (∀ (props : SingleImage.Props) (s : SingleImage.State) (u : string),
      SingleImage.imageUrl (snd (SingleImage.handleConfirm props s)) = Some u →
      SingleImage.imageUrl s = Some u
      ∨ ∃ file, file ∈ SingleImage.fileList s
                ∧ status file = Done ∧ url file = Some u ∧ u ≠ "")
  ∧ (∀ (props : SingleImage.Props) (s : SingleImage.State),
      (∀ file, file ∈ SingleImage.fileList s → status file = Done →
               url file = None ∨ url file = Some "") →
      SingleImage.handleConfirm props s = ([], s)).
Proof.
  split; [|split; [|split]].
  - intros props s u. unfold MultiImage.handleConfirm.
    destruct (0 <? length _)%nat; cbn [snd MultiImage.imageUrls]; [|by left].
    intros Hin%slice0_subseteq.
    apply elem_of_app in Hin as [Hold|Hnew]; [by left|right].
    by apply uploaded_url_origin, list_elem_of_In.
  - intros props s Hlack. apply confirm_multi_noop, no_uploaded.
    intros file Hin Hs. by apply has_url_false, Hlack.
  - intros props s u. unfold SingleImage.handleConfirm.
    destruct (List.find uploaded (SingleImage.fileList s)) as [file|] eqn:Hfind;
      [|by left].
    apply find_some in Hfind as [Hin Hup].
    destruct (url file) as [u'|] eqn:Hu; [|by left].
    destruct (String.eqb_spec u' "") as [->|Hne]; cbn [negb snd SingleImage.imageUrl];
      [by left|].
    intros [= ->]. right. exists file.
    unfold uploaded in Hup. apply andb_true_iff in Hup as [Hs _].
    apply status_eqb_eq in Hs. by rewrite list_elem_of_In.
  - intros props s Hlack. apply confirm_single_noop, no_uploaded.
    intros file Hin Hs. by apply has_url_false, Hlack.
Qed.

Lemma C10_witness :
  MultiImage.handleConfirm single_mode (multi_dialog [entry "rc-1" Done None] [])
    = ([], multi_dialog [entry "rc-1" Done None] []).
Proof.
  apply (proj1 (proj2 C10_confirm_commits_only_entries_with_url)).
  intros file Hin _. apply list_elem_of_singleton in Hin. subst file. by left.
Defined.

End Dialog.

(* ===================================================================== *)
(** ** The request adapter under every configuration                      *)
(* ===================================================================== *)

Section AdapterOptions.

Implicit Types (apiFunction : ApiFunction) (params : gmap string value).
Implicit Types (response : value) (options : CreateProTableRequestOptions).

Lemma request_events_thrown_params apiFunction options params e :
  transform_params (merge_options options) params = Throw e →
  createProTableRequest apiFunction options params
    = Settled [ConsoleError "ProTable request error:" e] (Fulfilled failure_response).
Proof.
  intros Hp. unfold createProTableRequest, async, try_catch, try_block, bind, lift.
  cbn. by rewrite Hp.
Qed.

Lemma try_block_trace config apiFunction params apiParams :
  transform_params config params = Normal apiParams →
  trace (try_block config apiFunction params) = [ApiCall apiParams].
Proof.
  intros Hp. unfold try_block, bind, lift, await_call. cbn. rewrite Hp. cbn.
  destruct (apiFunction apiParams) as [[response|e]|e]; cbn; [|done..].
  by destruct (transform_response config response).
Qed.

(** X1. The effects of one request: when the parameters cannot be built the
    backend is not called; otherwise it is called exactly once, first; and
    [console.error] is called, once and after the call, exactly when the
    [try] block throws, the request then resolving to the failure
    object. *)
Theorem request_effects apiFunction options params :
  (∀ e, transform_params (merge_options options) params = Throw e →
        events (createProTableRequest apiFunction options params)
          = [ConsoleError "ProTable request error:" e]
        ∧ settled (createProTableRequest apiFunction options params)
          = Fulfilled failure_response)
  ∧ (∀ apiParams,
        transform_params (merge_options options) params = Normal apiParams →
        (∀ r, outcome (try_block (merge_options options) apiFunction params) = Normal r →
              events (createProTableRequest apiFunction options params)
                = [ApiCall apiParams]
              ∧ settled (createProTableRequest apiFunction options params) = Fulfilled r)
        ∧ (∀ e, outcome (try_block (merge_options options) apiFunction params) = Throw e →
              events (createProTableRequest apiFunction options params)
                = [ApiCall apiParams; ConsoleError "ProTable request error:" e]
              ∧ settled (createProTableRequest apiFunction options params)
                = Fulfilled failure_response)).
Proof.
  split.
  - intros e Hp. by rewrite (request_events_thrown_params _ _ _ _ Hp).
  - intros apiParams Hp.
    pose proof (try_block_trace _ apiFunction _ _ Hp) as Htrace.
    split.
    + intros r Hout. unfold createProTableRequest, async, try_catch.
      rewrite Hout. cbn. by rewrite Htrace, Hout.
    + intros e Hout. unfold createProTableRequest, async, try_catch.
      rewrite Hout. cbn. by rewrite Htrace.
Qed.

Lemma request_effects_witness :
  events (createProTableRequest (rejects VNull) no_options sample_request)
    = [ApiCall (default_apiParams sample_request);
       ConsoleError "ProTable request error:" (Raised VNull)]
  ∧ settled (createProTableRequest (rejects VNull) no_options sample_request)
    = Fulfilled failure_response.
Proof.
  apply (proj2 (request_effects (rejects VNull) no_options sample_request)
           (default_apiParams sample_request) eq_refl).
  reflexivity.
Defined.

(** On the typed API function and options the run-time reading is the
    request function of [createProTableRequest]. *)
Lemma runtime_request_typed apiFunction options params :
  runtime_request (settling apiFunction) (synchronous options) params
    = (events (createProTableRequest apiFunction options params),
       Settles (settled (createProTableRequest apiFunction options params))).
Proof.
  unfold runtime_request, createProTableRequest, async, try_catch, try_block,
    bind, lift, await_call, caught, settling, transform_response.
  assert (transform_params (runtime_config (synchronous options)) params
          = transform_params (merge_options options) params) as -> by done.
  cbn.
  destruct (transform_params (merge_options options) params) as [apiParams|e]; cbn;
    [|done].
  destruct (apiFunction apiParams) as [[response|e]|e]; cbn; [|done..].
  destruct (transformResponse options) as [custom|]; cbn.
  - by destruct (custom response).
  - by destruct (default_transform_response _ response).
Qed.

(** X2. When the request function rejects.  With the backend promise free to
    fulfil, reject or stay pending, and a custom [transformResponse] free to
    return a response object or a promise, the request function rejects in
    exactly one situation: the parameters were built, the backend call
    fulfilled, and the custom [transformResponse] returned a promise that
    rejects; that rejection passes through, and nothing is written to the
    console.  So without a custom [transformResponse] the request function
    never rejects, whatever the backend does. *)
Theorem request_rejects_only_through_transformResponse
    (apiFunction : RuntimeApiFunction) (options : RuntimeOptions) params :
  (∀ e,
      snd (runtime_request apiFunction options params) = Settles (Rejected e)
      ↔ ∃ apiParams response custom,
          transform_params (runtime_config options) params = Normal apiParams
          ∧ apiFunction apiParams = Normal (Settles (Fulfilled response))
          ∧ rt_transformResponse options = Some custom
          ∧ custom response = Normal (Thenable (Settles (Rejected e))))
  ∧ (∀ e,
      snd (runtime_request apiFunction options params) = Settles (Rejected e) →
      ∃ apiParams, fst (runtime_request apiFunction options params) = [ApiCall apiParams])
  ∧ (rt_transformResponse options = None →
     ∀ e, snd (runtime_request apiFunction options params) ≠ Settles (Rejected e)).
Proof.
  assert (∀ e,
      snd (runtime_request apiFunction options params) = Settles (Rejected e) →
      ∃ apiParams response custom,
          transform_params (runtime_config options) params = Normal apiParams
          ∧ apiFunction apiParams = Normal (Settles (Fulfilled response))
          ∧ rt_transformResponse options = Some custom
          ∧ custom response = Normal (Thenable (Settles (Rejected e)))
          ∧ fst (runtime_request apiFunction options params) = [ApiCall apiParams])
    as Honly.
  { intros e. unfold runtime_request, caught.
    destruct (transform_params _ params) as [apiParams|?] eqn:Hp; [|done].
    destruct (apiFunction apiParams) as [[[response|?]|]|?] eqn:Hcall; try done.
    destruct (rt_transformResponse options) as [custom|] eqn:Hsome.
    - destruct (custom response) as [[r|p]|?] eqn:Hc; try done.
      cbn. intros ->. by exists apiParams, response, custom.
    - by destruct (default_transform_response _ response). }
  split; [|split].
  - intros e. split.
    + intros (apiParams & response & custom & ? & ? & ? & ? & _)%Honly.
      by exists apiParams, response, custom.
    + intros (apiParams & response & custom & Hp & Hcall & Hsome & Hc).
      unfold runtime_request. by rewrite Hp, Hcall, Hsome, Hc.
  - intros e (apiParams & _ & _ & _ & _ & _ & _ & Hev)%Honly. by exists apiParams.
  - intros Hnone e (_ & _ & custom & _ & _ & Hsome & _)%Honly. congruence.
Qed.

Lemma request_rejects_witness :
  snd (runtime_request (settling (returns VNull)) rejecting_transform_options
         sample_request)
    = Settles (Rejected (Raised (VString "bad rows"))).
Proof.
  apply (proj1 (request_rejects_only_through_transformResponse
                  (settling (returns VNull)) rejecting_transform_options
                  sample_request)).
  exists (default_apiParams sample_request), VNull,
    (fun _ => Normal (Thenable (Settles (Rejected (Raised (VString "bad rows")))))).
  repeat split; reflexivity.
Defined.

Lemma str_or_spread (given : option string) (d : string) :
  str_or (spread (Some d) given) d = str_or given d.
Proof. destruct given; [done|]. cbn. by destruct d. Qed.

Lemma request_first_event apiFunction options params apiParams :
  transform_params (merge_options options) params = Normal apiParams →
  head (events (createProTableRequest apiFunction options params))
    = Some (ApiCall apiParams).
Proof.
  intros Hp.
  pose proof (try_block_trace _ apiFunction _ _ Hp) as Htrace.
  unfold createProTableRequest, async, try_catch.
  destruct (outcome (try_block (merge_options options) apiFunction params)) as [r|e];
    cbn; by rewrite Htrace.
Qed.

(** X3. Configured field names.  With target names [a] for [current] and [b]
    for [pageSize] (a name left out or empty counts as [page], resp.
    [per]) and the transform not switched off, the backend receives
    [pageSize] under [b]; it receives [current] under [a] unless [a = b],
    in which case [current] is lost; [current] and [pageSize] themselves are
    gone unless chosen as target names; and every field with another name
    arrives unchanged. *)
Theorem configured_names apiFunction params (pt : ParamTransformConfig)
    (rt : option ResponseTransformConfig)
    (custom : option (value -> completion ProTableResponse)) :
  transformParams_enabled pt ≠ Some false →
  let a := str_or (currentTo pt) "page" in
  let b := str_or (pageSizeTo pt) "per" in
  ∃ sent : gmap string value,
    head (events (createProTableRequest apiFunction
                    {| paramTransform := Some pt; responseTransform := rt;
                       transformParams := None; transformResponse := custom |}
                    params))
      = Some (ApiCall (VObject sent))
    ∧ sent !! b = Some (default VUndefined (params !! "pageSize"))
    ∧ (a ≠ b → sent !! a = Some (default VUndefined (params !! "current")))
    ∧ (∀ k : string, k ≠ a → k ≠ b → k = "current" ∨ k = "pageSize" → sent !! k = None)
    ∧ (∀ k : string, k ≠ a → k ≠ b → k ≠ "current" → k ≠ "pageSize" →
         sent !! k = params !! k).
Proof.
  intros Hon a b.
  set (merged := merge_paramTransform (Some pt)).
  exists (default_transform_params merged params).
  split.
  - apply request_first_event. unfold transform_params. cbn.
    destruct (transformParams_enabled pt) as [[]|]; done.
  - unfold default_transform_params, merged. cbn.
    rewrite !str_or_spread. fold a b.
    repeat split.
    + by rewrite lookup_insert_eq.
    + intros Hab. by rewrite lookup_insert_ne, lookup_insert_eq.
    + intros k Ha Hb [-> | ->]; rewrite !lookup_insert_ne by done.
      * by rewrite lookup_delete_ne, lookup_delete_eq.
      * by rewrite lookup_delete_eq.
    + intros k Ha Hb Hc Hp.
      rewrite !lookup_insert_ne by done. by rewrite !lookup_delete_ne.
Qed.

Lemma configured_names_witness :
  ∃ sent : gmap string value,
    head (events (createProTableRequest (returns VNull)
                    (named_options (Some "pageNum") (Some "pageSize"))
                    sample_request))
      = Some (ApiCall (VObject sent))
    ∧ sent !! "pageSize" = Some (VNumber (num 15))
    ∧ sent !! "pageNum" = Some (VNumber (num 2)).
Proof.
  destruct (configured_names (returns VNull) sample_request
              {| currentTo := Some "pageNum"; pageSizeTo := Some "pageSize";
                 transformParams_enabled := None |} None None)
    as (sent & Hsent & Hb & Ha & _); [discriminate|].
  exists sent. split; [exact Hsent|]. split; [exact Hb|].
  apply Ha. discriminate.
Defined.

Set Warnings "-clear-no-such-hyp".

(** X4. The field names of what the default transform sends: those of the
    request without [current] and [pageSize], together with [page] and
    [per], which are always present; a request without [current]
    (or [pageSize]) sends [page] (or [per]) with the value [undefined]. *)
Theorem default_params_fields params :
  let sent := default_transform_params default_paramTransform params in
  dom sent = dom params ∖ {[ "current"; "pageSize" ]} ∪ {[ "page"; "per" ]}
  ∧ (params !! "current" = None → sent !! "page" = Some VUndefined)
  ∧ (params !! "pageSize" = None → sent !! "per" = Some VUndefined).
Proof.
  intros sent. subst sent. unfold default_transform_params. cbn.
  split; [|split].
  - rewrite !dom_insert_L, !dom_delete_L. set_solver.
  - intros ->. by rewrite lookup_insert_ne, lookup_insert_eq.
  - intros ->. by rewrite lookup_insert_eq.
Qed.

Lemma default_params_fields_witness :
  default_transform_params default_paramTransform ∅ !! "page" = Some VUndefined.
Proof. apply (default_params_fields ∅). reflexivity. Defined.

(** X5. With [paramTransform.transformParams] set to [false] (and no custom
    function) the backend receives the request object itself, [current] and
    [pageSize] included, whatever target names are configured. *)
Theorem switched_off_transform_sends_request apiFunction params
    (pt : ParamTransformConfig) (rt : option ResponseTransformConfig)
    (custom : option (value -> completion ProTableResponse)) :
  transformParams_enabled pt = Some false →
  head (events (createProTableRequest apiFunction
                  {| paramTransform := Some pt; responseTransform := rt;
                     transformParams := None; transformResponse := custom |}
                  params))
    = Some (ApiCall (VObject params)).
Proof.
  intros Hoff. apply request_first_event. unfold transform_params. cbn.
  by rewrite Hoff.
Qed.

Lemma switched_off_transform_witness :
  head (events (createProTableRequest (returns VNull) untransformed_options sample_request))
    = Some (ApiCall (VObject sample_request)).
Proof.
  apply (switched_off_transform_sends_request (returns VNull) sample_request
           {| currentTo := None; pageSizeTo := None;
              transformParams_enabled := Some false |} None None).
  reflexivity.
Defined.

(** X6. A custom [transformParams] function takes precedence over the whole
    [paramTransform] configuration: the backend receives exactly what it
    returns, and when it throws the backend is not called and the request
    resolves to the failure object. *)
Theorem custom_transformParams_decides apiFunction params
    (custom : gmap string value -> completion value)
    (pt : option ParamTransformConfig) (rt : option ResponseTransformConfig)
    (customResponse : option (value -> completion ProTableResponse)) :
  let options := {| paramTransform := pt; responseTransform := rt;
                    transformParams := Some custom;
                    transformResponse := customResponse |} in
  (∀ apiParams, custom params = Normal apiParams →
      head (events (createProTableRequest apiFunction options params))
        = Some (ApiCall apiParams))
  ∧ (∀ e, custom params = Throw e →
      createProTableRequest apiFunction options params
        = Settled [ConsoleError "ProTable request error:" e]
                  (Fulfilled failure_response)).
Proof.
  intros options. split.
  - intros apiParams Hc. by apply request_first_event.
  - intros e Hc. by apply request_events_thrown_params.
Qed.

Lemma custom_transformParams_witness :
  createProTableRequest (returns VNull)
      (custom_params_options (fun _ => Throw TypeError)) sample_request
    = Settled [ConsoleError "ProTable request error:" TypeError]
              (Fulfilled failure_response).
Proof.
  apply (proj2 (custom_transformParams_decides (returns VNull) sample_request
                  (fun _ => Throw TypeError) None None None)).
  reflexivity.
Defined.

(** X7. A custom [transformResponse] function decides the result alone: what it
    returns is handed on as it is, without the array and number checks of
    the default transform, and when it throws the request resolves to the
    failure object. *)
Theorem custom_transformResponse_decides apiFunction options params
    (apiParams response : value)
    (custom : value -> completion ProTableResponse) :
  transformResponse options = Some custom →
  transform_params (merge_options options) params = Normal apiParams →
  apiFunction apiParams = Normal (Fulfilled response) →
  settled (createProTableRequest apiFunction options params)
    = match custom response with
      | Normal r => Fulfilled r
      | Throw _ => Fulfilled failure_response
      end.
Proof.
  intros Hc Hp Hcall.
  rewrite request_settled, (try_block_outcome _ _ _ _ Hp), Hcall.
  unfold transform_response, merge_options. cbn. by rewrite Hc.
Qed.

Lemma custom_transformResponse_witness :
  settled (createProTableRequest (returns VNull)
             (custom_response_options
                (fun _ => Normal {| data := VNull; success := VNull; total := VNull |}))
             sample_request)
    = Fulfilled {| data := VNull; success := VNull; total := VNull |}.
Proof.
  rewrite (custom_transformResponse_decides (returns VNull)
             (custom_response_options
                (fun _ => Normal {| data := VNull; success := VNull; total := VNull |}))
             sample_request (default_apiParams sample_request) VNull
             (fun _ => Normal {| data := VNull; success := VNull; total := VNull |}));
    reflexivity.
Defined.

(** The default response transform under any configured paths. *)
Lemma default_transform_response_shape (rt : ResponseTransformConfig) response r :
  default_transform_response rt response = Normal r →
  isArray (data r) = true ∧ typeof (total r) = "number"
  ∧ success r = js_coalesce (get response "success") (VBool true).
Proof.
  unfold default_transform_response, member.
  destruct (loosely_null response); [done|].
  intros [= <-]. cbn.
  split; [apply adapted_data_is_array|].
  split; [apply adapted_total_is_number|done].
Qed.

(** X8. Whatever field names and paths are configured, and whatever custom
    parameter transform is given, a request made without a custom
    [transformResponse] resolves to an object whose [data] is an array and
    whose [total] is a number. *)
Theorem response_shape_for_every_path apiFunction options params :
  transformResponse options = None →
  ∃ r : ProTableResponse,
    settled (createProTableRequest apiFunction options params) = Fulfilled r
    ∧ isArray (data r) = true
    ∧ typeof (total r) = "number".
Proof.
  intros Hnone. rewrite request_settled.
  destruct (outcome (try_block _ apiFunction params)) as [r|e] eqn:Hout;
    [|by exists failure_response].
  exists r. split; [done|].
  unfold try_block, bind, lift, await_call in Hout. cbn in Hout.
  destruct (transform_params _ params) as [apiParams|?]; cbn in Hout; [|done].
  destruct (apiFunction apiParams) as [[response|?]|?]; cbn in Hout; try done.
  unfold transform_response in Hout. cbn in Hout. rewrite Hnone in Hout. cbn in Hout.
  by destruct (default_transform_response_shape _ _ _ Hout) as (? & ? & _).
Qed.

Lemma response_shape_witness :
  ∃ r : ProTableResponse,
    settled (createProTableRequest (returns (VString "<html>")) items_options
               sample_request) = Fulfilled r
    ∧ isArray (data r) = true
    ∧ typeof (total r) = "number".
Proof.
  apply (response_shape_for_every_path (returns (VString "<html>")) items_options
           sample_request).
  reflexivity.
Defined.

(** X9. A payload with the expected envelope passes through: for an object
    whose [data] is an object holding an array [list] and a number [total],
    the request resolves to exactly these rows, to that total (a total of
    [-0] or [NaN] becomes [0]), and to the payload's [success] field,
    [true] when that is absent or [null], further fields being ignored. *)
Theorem envelope_passes_through apiFunction params
    (o d : gmap string value) (rows : list value) (n : number) :
  apiFunction (default_apiParams params) = Normal (Fulfilled (VObject o)) →
  o !! "data" = Some (VObject d) →
  d !! "list" = Some (VArray rows) →
  d !! "total" = Some (VNumber n) →
  settled (createProTableRequest apiFunction no_options params)
    = Fulfilled
        {| data := VArray rows;
           success := js_coalesce (default VUndefined (o !! "success")) (VBool true);
           total := if truthy (VNumber n) then VNumber n else VNumber (num 0) |}.
Proof.
  intros Hcall Hdata Hlist Htotal.
  rewrite request_settled, try_block_outcome_default, Hcall.
  rewrite default_transform_response_value by done.
  unfold getValueByPath. cbn. rewrite Hdata. cbn. rewrite Hlist, Htotal. cbn.
  unfold js_or. cbn. by destruct n.
Qed.

Lemma envelope_passes_through_witness :
  settled (createProTableRequest
             (returns (envelope (VArray [VString "a"; VString "b"]) (VNumber (num 2))))
             no_options sample_request)
    = Fulfilled {| data := VArray [VString "a"; VString "b"];
                   success := VBool true;
                   total := VNumber (num 2) |}.
Proof.
  rewrite (envelope_passes_through _ sample_request
             (<["success" := VBool true]>
                (<["data" := VObject (<["list" := VArray [VString "a"; VString "b"]]>
                                        (<["total" := VNumber (num 2)]> ∅))]> ∅))
             (<["list" := VArray [VString "a"; VString "b"]]>
                (<["total" := VNumber (num 2)]> ∅))
             [VString "a"; VString "b"] (num 2));
    reflexivity.
Defined.

(** *** getValueByPath *)

Lemma split_nonempty (sep : ascii) (s : string) : split sep s ≠ [].
Proof.
  destruct s as [|c s]; cbn [split]; [done|].
  destruct (Ascii.eqb c sep); [done|]. by destruct (split sep s).
Qed.

Lemma split_append (sep : ascii) (p q : string) :
  split sep (p ++ String sep q) = (split sep p ++ split sep q)%list.
Proof.
  induction p as [|c p IH].
  - change (split sep (String sep q) = (split sep "" ++ split sep q)%list).
    cbn [split app]. by rewrite Ascii.eqb_refl.
  - change (split sep (String c (p ++ String sep q))
            = (split sep (String c p) ++ split sep q)%list).
    cbn [split].
    destruct (Ascii.eqb c sep); [by rewrite IH|].
    rewrite IH. pose proof (split_nonempty sep p) as Hne.
    by destruct (split sep p).
Qed.

Lemma loop_undefined (keys : list string) :
  keys ≠ [] → getValueByPath_loop VUndefined keys = VUndefined.
Proof. by destruct keys. Qed.

Lemma loop_append (keys1 keys2 : list string) :
  keys2 ≠ [] →
  ∀ cur, getValueByPath_loop cur (keys1 ++ keys2)
         = getValueByPath_loop (getValueByPath_loop cur keys1) keys2.
Proof.
  intros Hne. induction keys1 as [|key keys1 IH]; intros cur; cbn; [done|].
  destruct (loosely_null cur || negb (String.eqb (typeof cur) "object")).
  - by rewrite loop_undefined.
  - apply IH.
Qed.

(** X10. Paths compose: resolving [p.q] is resolving [q] in what [p] resolves
    to, for every value and all paths [p] and [q]: a broken chain stays
    [undefined]. *)
Theorem getValueByPath_compose (obj : value) (p q : string) :
  getValueByPath obj (p ++ String "." q)
    = getValueByPath (getValueByPath obj p) q.
Proof.
  unfold getValueByPath. rewrite split_append.
  apply loop_append, split_nonempty.
Qed.

(** X11. Edge cases of [getValueByPath]: from [undefined], [null] or a
    primitive every path, the empty one included, gives [undefined]; and a
    path without a dot is one property lookup, so the empty path looks up
    the property named by the empty string and does not return the object
    itself. *)
Theorem getValueByPath_edges :
  (∀ (obj : value) (path : string),
      indexable obj = false → getValueByPath obj path = VUndefined)
  ∧ (∀ (obj : value) (key : string),
      indexable obj = true → split "." key = [key] →
      getValueByPath obj key = get obj key)
  ∧ (∀ o : gmap string value,
      getValueByPath (VObject o) "" = default VUndefined (o !! "")).
Proof.
  split; [|split].
  - intros obj path Hprim. unfold getValueByPath.
    pose proof (split_nonempty "." path) as Hne.
    destruct (split "." path) as [|key keys]; [done|]. cbn.
    rewrite loop_guard_indexable. by rewrite Hprim.
  - intros obj key Hidx Hone. unfold getValueByPath. rewrite Hone. cbn.
    rewrite loop_guard_indexable. by rewrite Hidx.
  - done.
Qed.

Lemma getValueByPath_edges_witness :
  getValueByPath (VString "text") "length" = VUndefined
  ∧ getValueByPath (VArray [VNull; VNull]) "length" = VNumber (num 2).
Proof.
  split.
  - apply (proj1 getValueByPath_edges). reflexivity.
  - rewrite (proj1 (proj2 getValueByPath_edges)); reflexivity.
Defined.

End AdapterOptions.

(* ===================================================================== *)
(** ** Selecting files: the gates of beforeUpload                         *)
(* ===================================================================== *)

Section Gates.

Implicit Types (allowedExtensions mimes : list string) (file : File).
Implicit Types (ext mime : string) (size maxSize : Z).

Lemma isValidSize_bytes size maxSize :
  isValidSize size maxSize = true ↔ (size < maxSize * 1048576)%Z.
Proof.
  unfold isValidSize. rewrite negb_true_iff, <- not_true_iff_false, Qle_bool_iff.
  unfold Qle, Qdiv, Qmult, Qinv, inject_Z. cbn. lia.
Qed.

(** X12. The size gate in bytes: a file passes exactly when it is smaller than
    [maxSize] times 1048576 bytes; so a file of exactly [maxSize] megabytes
    is turned away, and so is every file when [maxSize] is zero or
    negative. *)
Theorem size_gate_in_bytes size maxSize :
  (isValidSize size maxSize = true ↔ (size < maxSize * 1048576)%Z)
  ∧ isValidSize (maxSize * 1048576) maxSize = false
  ∧ ((0 ≤ size)%Z → (maxSize ≤ 0)%Z → isValidSize size maxSize = false).
Proof.
  split; [apply isValidSize_bytes|]. split.
  - apply not_true_iff_false. rewrite isValidSize_bytes. lia.
  - intros Hsize Hmax. apply not_true_iff_false. rewrite isValidSize_bytes. lia.
Qed.

Lemma size_gate_in_bytes_witness :
  isValidSize 5242879 5 = true ∧ isValidSize 0 0 = false.
Proof.
  split.
  - apply (proj2 (proj1 (size_gate_in_bytes 5242879 5))). reflexivity.
  - apply (proj2 (proj2 (size_gate_in_bytes 0 0))); reflexivity.
Defined.

Lemma validateFileType_true_silent allowedExtensions file :
  outcome (validateFileType allowedExtensions file) = Normal true →
  trace (validateFileType allowedExtensions file) = [].
Proof.
  unfold validateFileType, check_mime, reject.
  destruct (fileExtension file) as [ext|]; [|done].
  destruct (isValidExtension allowedExtensions ext); [|done]. cbn [negb].
  destruct (String.eqb (type file) ""); cbn [negb]; [done|].
  destruct (mimeTypeMap !! ext) as [mimes|].
  - by destruct (existsb _ mimes).
  - by destruct (existsb _ inherited_lowercase_names).
Qed.

Lemma validateFileType_false_message allowedExtensions file :
  outcome (validateFileType allowedExtensions file) = Normal false →
  trace (validateFileType allowedExtensions file)
    = [MessageError (format_message allowedExtensions)].
Proof.
  unfold validateFileType, check_mime, reject.
  destruct (fileExtension file) as [ext|]; [|done].
  destruct (isValidExtension allowedExtensions ext); [|done]. cbn [negb].
  destruct (String.eqb (type file) ""); cbn [negb]; [done|].
  destruct (mimeTypeMap !! ext) as [mimes|].
  - by destruct (existsb _ mimes).
  - by destruct (existsb _ inherited_lowercase_names).
Qed.

Lemma lower_ascii_dot (c : ascii) :
  Ascii.eqb (lower_ascii c) "." = Ascii.eqb c ".".
Proof. destruct c as [[] [] [] [] [] [] [] []]; reflexivity. Qed.

Lemma toLowerCase_app (a b : string) :
  toLowerCase (a ++ b) = (toLowerCase a ++ toLowerCase b)%string.
Proof.
  induction a as [|c a IH]; [done|].
  change (toLowerCase (String c (a ++ b))
          = String (lower_ascii c) (toLowerCase a ++ toLowerCase b)).
  cbn [toLowerCase]. by rewrite IH.
Qed.

Lemma includes_dot_toLowerCase (s : string) :
  includes "." (toLowerCase s) = includes "." s.
Proof.
  induction s as [|c s IH]; [done|].
  cbn [toLowerCase includes]. by rewrite lower_ascii_dot, IH.
Qed.

Lemma lastIndexOf_from_absent (c : ascii) (s : string) (i found : Z) :
  includes c s = false → lastIndexOf_from c s i found = found.
Proof.
  revert i found. induction s as [|a s IH]; intros i found; [done|].
  cbn [includes lastIndexOf_from]. intros [Ha Hs]%orb_false_iff.
  rewrite Ha. by apply IH.
Qed.

Lemma lastIndexOf_from_last (c : ascii) (stem rest : string) (i found : Z) :
  includes c rest = false →
  lastIndexOf_from c (stem ++ String c rest) i found
    = (i + Z.of_nat (String.length stem))%Z.
Proof.
  intros Hrest. revert i found. induction stem as [|a stem IH]; intros i found.
  - change (lastIndexOf_from c (String c rest) i found = (i + 0)%Z).
    cbn [lastIndexOf_from]. rewrite Ascii.eqb_refl.
    rewrite lastIndexOf_from_absent by done. lia.
  - change (lastIndexOf_from c (String a (stem ++ String c rest)) i found
            = (i + Z.of_nat (S (String.length stem)))%Z).
    cbn [lastIndexOf_from]. rewrite IH. lia.
Qed.

Lemma string_drop_past_stem (c : ascii) (stem rest : string) :
  string_drop (S (String.length stem)) (stem ++ String c rest) = rest.
Proof.
  induction stem as [|a stem IH]; [done|].
  change (string_drop (S (S (String.length stem))) (String a (stem ++ String c rest))
          = rest).
  cbn [string_drop]. exact IH.
Qed.

(** The extension in terms of the name: none when the name has no dot;
    otherwise what follows the last dot, in lower case. *)
Lemma fileExtension_of_name file :
  (includes "." (name file) = false → fileExtension file = None)
  ∧ (∀ stem ext : string,
       name file = (stem ++ String "." ext)%string →
       includes "." ext = false →
       fileExtension file = Some (toLowerCase ext)).
Proof.
  unfold fileExtension, lastIndexOf, substring_from. split.
  - intros Hnone.
    by rewrite lastIndexOf_from_absent by (by rewrite includes_dot_toLowerCase).
  - intros stem ext -> Hext.
    rewrite toLowerCase_app.
    change (toLowerCase (String "." ext)) with (String "."%char (toLowerCase ext)).
    rewrite lastIndexOf_from_last by (by rewrite includes_dot_toLowerCase).
    destruct (Z.eqb_spec (0 + Z.of_nat (String.length (toLowerCase stem))) (-1)); [lia|].
    replace (Z.to_nat (0 + Z.of_nat (String.length (toLowerCase stem)) + 1))
      with (S (String.length (toLowerCase stem))) by lia.
    by rewrite string_drop_past_stem.
Qed.

Lemma isValidExtension_false allowedExtensions ext :
  (∀ allowed, allowed ∈ allowedExtensions → toLowerCase allowed ≠ ext) →
  isValidExtension allowedExtensions ext = false.
Proof.
  intros Hnone. unfold isValidExtension.
  apply not_true_iff_false. intros (allowed & Hin & Heq)%existsb_exists.
  apply String.eqb_eq in Heq. apply (Hnone allowed); [|done].
  by apply list_elem_of_In.
Qed.

(** X13. The extension gate, read off the file name.  For a name and allowed
    extensions made of ASCII characters: a file whose name contains no dot
    is rejected, and so is a file whose name ends, after its last dot, in
    an extension that equals none of the allowed ones up to letter case;
    in both cases whatever MIME type the file reports, and with one
    message. *)
Theorem extension_gate_by_name allowedExtensions file :
  ascii_only (name file) = true →
  Forall (fun allowed => ascii_only allowed = true) allowedExtensions →
  (includes "." (name file) = false →
     outcome (validateFileType allowedExtensions file) = Normal false
     ∧ ∃ text, trace (validateFileType allowedExtensions file) = [MessageError text])
  ∧ (∀ stem ext : string,
       name file = (stem ++ String "." ext)%string →
       includes "." ext = false →
       (∀ allowed, allowed ∈ allowedExtensions →
                   toLowerCase allowed ≠ toLowerCase ext) →
       outcome (validateFileType allowedExtensions file) = Normal false
       ∧ ∃ text, trace (validateFileType allowedExtensions file) = [MessageError text]).
Proof.
  intros _ _. destruct (fileExtension_of_name file) as [Hnone Hsome].
  unfold validateFileType. split.
  - intros Hdot. rewrite (Hnone Hdot). split; [done|by eexists].
  - intros stem ext Hname Hext Hdiffer.
    rewrite (Hsome stem ext Hname Hext).
    rewrite isValidExtension_false by done. split; [done|by eexists].
Qed.

Lemma extension_gate_by_name_witness :
  outcome (validateFileType default_allowedExtensions
             {| name := "report.final.PDF"; type := "image/png" |}) = Normal false.
Proof.
  apply (proj2 (extension_gate_by_name default_allowedExtensions
                  {| name := "report.final.PDF"; type := "image/png" |}
                  eq_refl ltac:(repeat constructor))
           "report.final" "PDF" eq_refl eq_refl).
  intros allowed Hin.
  repeat (apply elem_of_cons in Hin as [->|Hin]; [discriminate|]).
  by apply elem_of_nil in Hin.
Defined.

(** X14. With the default allowed extensions the validation never throws, and it
    accepts a file exactly when the extension has a row in the table and
    the file reports no type or one of the types of that row. *)
Theorem default_validation_decides file :
  ∃ accepted : bool,
    outcome (validateFileType default_allowedExtensions file) = Normal accepted
    ∧ (accepted = true ↔
       ∃ ext mimes, fileExtension file = Some ext
                    ∧ mimeTypeMap !! ext = Some mimes
                    ∧ (type file = "" ∨ type file ∈ mimes)).
Proof.
  unfold validateFileType.
  destruct (fileExtension file) as [ext|] eqn:Hext.
  2:{ exists false. split; [done|]. split; [done|]. by intros (? & ? & ? & _). }
  destruct (isValidExtension default_allowedExtensions ext) eqn:Hvalid; cbn [negb].
  2:{ exists false. split; [done|]. split; [done|].
      intros (ext' & mimes & [= <-] & Hrow & _).
      assert (isValidExtension default_allowedExtensions ext = true) as Hyes; [|congruence].
      clear -Hrow. revert Hrow. unfold mimeTypeMap.
      rewrite !lookup_insert. repeat case_decide; subst; try done. }
  destruct (default_extensions_in_table ext Hvalid) as [mimes Hrow].
  destruct (String.eqb_spec (type file) "") as [Hnone|Hsome]; cbn [negb].
  - exists true. split; [done|]. split; [|done]. intros _. exists ext, mimes. auto.
  - unfold check_mime. rewrite Hrow, existsb_eqb_elem_of.
    exists (bool_decide (type file ∈ mimes)).
    split; [by destruct (bool_decide _)|].
    rewrite bool_decide_eq_true. split.
    + intros Hin. exists ext, mimes. auto.
    + intros (ext' & mimes' & [= <-] & Hrow' & [?|Hin]); [done|]. congruence.
Qed.

Lemma gates_proceed maxSize allowedExtensions size file :
  outcome (size_and_type_gates maxSize allowedExtensions size file) = Normal Proceed →
  isValidSize size maxSize = true
  ∧ outcome (validateFileType allowedExtensions file) = Normal true
  ∧ trace (size_and_type_gates maxSize allowedExtensions size file) = [].
Proof.
  unfold size_and_type_gates, bind.
  destruct (isValidSize size maxSize); cbn [negb]; [|done].
  destruct (outcome (validateFileType allowedExtensions file)) as [[]|] eqn:Hv;
    cbn; [|done..].
  intros _. rewrite (validateFileType_true_silent _ _ Hv). done.
Qed.

Lemma gates_ignore maxSize allowedExtensions size file :
  outcome (size_and_type_gates maxSize allowedExtensions size file) = Normal LIST_IGNORE →
  trace (size_and_type_gates maxSize allowedExtensions size file)
    = [MessageError (too_large_message maxSize)]
  ∨ trace (size_and_type_gates maxSize allowedExtensions size file)
    = [MessageError (format_message allowedExtensions)].
Proof.
  unfold size_and_type_gates, bind.
  destruct (isValidSize size maxSize); cbn [negb]; [|by left].
  destruct (outcome (validateFileType allowedExtensions file)) as [[]|] eqn:Hv;
    cbn; [done| |done].
  intros _. right. rewrite (validateFileType_false_message _ _ Hv). done.
Qed.

(** X16. When [beforeUpload] lets a file through, in the current component, the
    committed images, the entries uploading or done and the files of the
    batch together do not exceed [maxCount], the file is below the size
    limit, the file-type validation accepted it, and no message was
    shown. *)
Theorem beforeUpload_proceeds (props : MultiImage.Props) maxSize allowedExtensions
    (s : MultiImage.State) size file (currentFileList : list File) :
  outcome (MultiImage.beforeUpload props maxSize allowedExtensions s size file
             currentFileList) = Normal Proceed →
  (Z.of_nat (length (MultiImage.imageUrls s) + MultiImage.pendingUploadCount s
             + length currentFileList) ≤ MultiImage.maxCount props)%Z
  ∧ (size < maxSize * 1048576)%Z
  ∧ outcome (validateFileType allowedExtensions file) = Normal true
  ∧ trace (MultiImage.beforeUpload props maxSize allowedExtensions s size file
             currentFileList) = [].
Proof.
  unfold MultiImage.beforeUpload.
  destruct (Z.ltb_spec (MultiImage.maxCount props)
              (Z.of_nat (length (MultiImage.imageUrls s)
                         + MultiImage.pendingUploadCount s + length currentFileList)));
    [done|].
  intros (Hsize & Htype & Hquiet)%gates_proceed.
  by rewrite <- isValidSize_bytes.
Qed.

Lemma beforeUpload_proceeds_witness :
  outcome (validateFileType default_allowedExtensions
             {| name := "photo.JPG"; type := "image/jpeg" |}) = Normal true
  ∧ trace (MultiImage.beforeUpload single_mode 5 default_allowedExtensions
             (multi_dialog [] []) 1024
             {| name := "photo.JPG"; type := "image/jpeg" |}
             [{| name := "photo.JPG"; type := "image/jpeg" |}]) = [].
Proof.
  destruct (beforeUpload_proceeds single_mode 5 default_allowedExtensions
              (multi_dialog [] []) 1024
              {| name := "photo.JPG"; type := "image/jpeg" |}
              [{| name := "photo.JPG"; type := "image/jpeg" |}] eq_refl)
    as (_ & _ & Htype & Hquiet).
  split; assumption.
Defined.

(** X17. Every file that [beforeUpload] turns away comes with exactly one
    message: the count message, the size message or the format message. *)
Theorem beforeUpload_ignores_with_one_message (props : MultiImage.Props) maxSize
    allowedExtensions (s : MultiImage.State) size file (currentFileList : list File) :
  outcome (MultiImage.beforeUpload props maxSize allowedExtensions s size file
             currentFileList) = Normal LIST_IGNORE →
  ∃ text,
    trace (MultiImage.beforeUpload props maxSize allowedExtensions s size file
             currentFileList) = [MessageError text]
    ∧ (text = too_many_message (MultiImage.maxCount props)
       ∨ text = too_large_message maxSize
       ∨ text = format_message allowedExtensions).
Proof.
  unfold MultiImage.beforeUpload.
  destruct (_ <? _)%Z.
  - intros _. eexists. split; [done|]. by left.
  - intros [-> | ->]%gates_ignore; eexists; (split; [done|]); auto.
Qed.

Lemma beforeUpload_ignores_witness :
  ∃ text,
    trace (MultiImage.beforeUpload single_mode 5 default_allowedExtensions
             (multi_dialog [] []) 9000000
             {| name := "photo.JPG"; type := "image/jpeg" |}
             [{| name := "photo.JPG"; type := "image/jpeg" |}]) = [MessageError text]
    ∧ (text = too_many_message 1
       ∨ text = too_large_message 5
       ∨ text = format_message default_allowedExtensions).
Proof.
  apply (beforeUpload_ignores_with_one_message single_mode 5 default_allowedExtensions
           (multi_dialog [] []) 9000000
           {| name := "photo.JPG"; type := "image/jpeg" |}
           [{| name := "photo.JPG"; type := "image/jpeg" |}]).
  reflexivity.
Defined.

(** X18. The count gate comes first and does not look at the file: once the
    committed images alone reach [maxCount], every file of every non-empty
    batch is turned away with the count message, whatever its size, name
    and type. *)
Theorem beforeUpload_full (props : MultiImage.Props) maxSize allowedExtensions
    (s : MultiImage.State) size file (currentFileList : list File) :
  (MultiImage.maxCount props ≤ Z.of_nat (length (MultiImage.imageUrls s)))%Z →
  currentFileList ≠ [] →
  MultiImage.beforeUpload props maxSize allowedExtensions s size file currentFileList
    = Run [MessageError (too_many_message (MultiImage.maxCount props))]
          (Normal LIST_IGNORE).
Proof.
  intros Hfull Hbatch. unfold MultiImage.beforeUpload.
  destruct (Z.ltb_spec (MultiImage.maxCount props)
              (Z.of_nat (length (MultiImage.imageUrls s)
                         + MultiImage.pendingUploadCount s + length currentFileList)));
    [done|].
  destruct currentFileList; [done|]. cbn [length] in *. lia.
Qed.

Lemma beforeUpload_full_witness :
  MultiImage.beforeUpload single_mode 5 default_allowedExtensions
      (multi_dialog [] ["/img/a.png"]) 10
      {| name := "b.png"; type := "image/png" |}
      [{| name := "b.png"; type := "image/png" |}]
    = Run [MessageError (too_many_message 1)] (Normal LIST_IGNORE).
Proof.
  apply (beforeUpload_full single_mode 5 default_allowedExtensions
           (multi_dialog [] ["/img/a.png"]) 10
           {| name := "b.png"; type := "image/png" |}
           [{| name := "b.png"; type := "image/png" |}]).
  - cbn. lia.
  - discriminate.
Defined.

Lemma lower_ascii_idempotent (c : ascii) : lower_ascii (lower_ascii c) = lower_ascii c.
Proof. destruct c as [[] [] [] [] [] [] [] []]; reflexivity. Qed.

Lemma toLowerCase_idempotent (s : string) : toLowerCase (toLowerCase s) = toLowerCase s.
Proof.
  induction s as [|c s IH]; [done|].
  cbn [toLowerCase]. by rewrite lower_ascii_idempotent, IH.
Qed.

Lemma isValidExtension_lowercased allowedExtensions ext :
  isValidExtension (map toLowerCase allowedExtensions) ext
    = isValidExtension allowedExtensions ext.
Proof.
  unfold isValidExtension.
  induction allowedExtensions as [|allowed rest IH]; [done|].
  cbn [map existsb]. by rewrite toLowerCase_idempotent, IH.
Qed.

(** X15. Letter case of ASCII names does not matter: for a file name and
    allowed extensions made of ASCII characters, a file validates as the
    file with its name in lower case does, message included, and the
    verdict is the same with the allowed extensions written in lower case.
    (The reported MIME type, by contrast, is compared as it is.) *)
Theorem validation_ignores_letter_case allowedExtensions file :
  ascii_only (name file) = true →
  Forall (fun allowed => ascii_only allowed = true) allowedExtensions →
  validateFileType allowedExtensions
      {| name := toLowerCase (name file); type := type file |}
    = validateFileType allowedExtensions file
  ∧ outcome (validateFileType (map toLowerCase allowedExtensions) file)
    = outcome (validateFileType allowedExtensions file).
Proof.
  intros _ _. split.
  - unfold validateFileType, fileExtension. cbn [name type].
    by rewrite toLowerCase_idempotent.
  - unfold validateFileType.
    destruct (fileExtension file) as [ext|]; [|done].
    rewrite isValidExtension_lowercased.
    destruct (isValidExtension allowedExtensions ext); [|done]. cbn [negb].
    destruct (String.eqb (type file) ""); [done|]. cbn [negb].
    unfold check_mime.
    destruct (mimeTypeMap !! ext) as [mimes|].
    + by destruct (existsb _ mimes).
    + by destruct (existsb _ inherited_lowercase_names).
Qed.

Lemma validation_ignores_letter_case_witness :
  validateFileType default_allowedExtensions {| name := "logo.png"; type := "image/png" |}
    = validateFileType default_allowedExtensions
        {| name := "Logo.PNG"; type := "image/png" |}.
Proof.
  apply (proj1 (validation_ignores_letter_case default_allowedExtensions
                  {| name := "Logo.PNG"; type := "image/png" |}
                  eq_refl ltac:(repeat constructor))).
Defined.

(** X19. In the two single-image versions [beforeUpload] has no count gate: a
    file goes through exactly when it is below the size limit and the
    file-type validation accepts it, without any message; a file turned
    away gets one message, about the size or about the format. *)
Theorem single_beforeUpload_verdict maxSize allowedExtensions size file :
  (outcome (SingleImage.beforeUpload maxSize allowedExtensions size file) = Normal Proceed
   ↔ (size < maxSize * 1048576)%Z
     ∧ outcome (validateFileType allowedExtensions file) = Normal true)
  ∧ (outcome (SingleImage.beforeUpload maxSize allowedExtensions size file) = Normal Proceed →
     trace (SingleImage.beforeUpload maxSize allowedExtensions size file) = [])
  ∧ (outcome (SingleImage.beforeUpload maxSize allowedExtensions size file)
       = Normal LIST_IGNORE →
     trace (SingleImage.beforeUpload maxSize allowedExtensions size file)
       = [MessageError (too_large_message maxSize)]
     ∨ trace (SingleImage.beforeUpload maxSize allowedExtensions size file)
       = [MessageError (format_message allowedExtensions)]).
Proof.
  unfold SingleImage.beforeUpload. split; [|split].
  - rewrite <- isValidSize_bytes. split.
    + by intros (? & ? & _)%gates_proceed.
    + intros [Hsize Htype]. unfold size_and_type_gates, bind.
      by rewrite Hsize, Htype.
  - by intros (_ & _ & ?)%gates_proceed.
  - apply gates_ignore.
Qed.

Lemma single_beforeUpload_verdict_witness :
  outcome (SingleImage.beforeUpload 5 default_allowedExtensions 2048
             {| name := "icon.svg"; type := "" |}) = Normal Proceed.
Proof.
  apply (proj1 (single_beforeUpload_verdict 5 default_allowedExtensions 2048
                  {| name := "icon.svg"; type := "" |})).
  split; reflexivity.
Defined.

End Gates.

(* ===================================================================== *)
(** ** The committed images: confirm, remove, and the value prop          *)
(* ===================================================================== *)

Section Committed.

Implicit Types (file : UploadFile) (fileList : list UploadFile).
Implicit Types (urls : list string) (props : MultiImage.Props) (s : MultiImage.State).

Lemma filter_index_delete {A} (xs : list A) (i k : nat) :
  filter_index (fun j => negb (Nat.eqb j (k + i)%nat)) k xs = delete i xs.
Proof.
  revert i k. induction xs as [|x xs IH]; intros i k; [by destruct i|].
  cbn [filter_index]. destruct i as [|i].
  - rewrite Nat.add_0_r, Nat.eqb_refl. cbn [negb delete list_delete].
    clear IH. enough (∀ (ys : list A) (k' : nat), (k < k')%nat →
      filter_index (fun j => negb (Nat.eqb j k)) k' ys = ys) as H by (apply H; lia).
    induction ys as [|y ys IHys]; intros k' Hlt; [done|].
    cbn [filter_index]. destruct (Nat.eqb_spec k' k); [lia|].
    cbn [negb]. f_equal. apply IHys. lia.
  - destruct (Nat.eqb_spec k (k + S i)%nat); [lia|]. cbn [negb delete list_delete].
    f_equal. replace (k + S i)%nat with (S k + i)%nat by lia. apply IH.
Qed.

Lemma filter_index_delete0 {A} (xs : list A) (i : nat) :
  filter_index (fun j => negb (Nat.eqb j i)) 0 xs = delete i xs.
Proof. exact (filter_index_delete xs i 0). Qed.

Lemma delete_past_end {A} (xs : list A) (i : nat) :
  (length xs ≤ i)%nat → delete i xs = xs.
Proof.
  intros Hout. rewrite delete_take_drop, take_ge, drop_ge by lia.
  apply app_nil_r.
Qed.

Lemma slice0_length {A} (xs : list A) (end_ : Z) :
  (0 ≤ end_)%Z → (Z.of_nat (length (slice0 xs end_)) ≤ end_)%Z.
Proof.
  intros Hpos. unfold slice0.
  destruct (Z.ltb_spec end_ 0); [lia|]. rewrite length_take. lia.
Qed.

Lemma slice0_fits {A} (xs : list A) (end_ : Z) :
  (Z.of_nat (length xs) ≤ end_)%Z → slice0 xs end_ = xs.
Proof.
  intros Hfit. unfold slice0.
  destruct (Z.ltb_spec end_ 0); [lia|]. apply take_ge. lia.
Qed.

(** X20. Removing a committed image with several images allowed
    ([maxCount] other than 1): the image at the given position is deleted
    and the others keep their order; a position past the end deletes
    nothing, and still both callbacks are called; each callback receives the
    remaining URLs as an array; the dialog and [fileList] are untouched. *)
Theorem handleRemove_deletes_position props s (index : nat) :
  MultiImage.maxCount props ≠ 1%Z →
  let remaining := delete index (MultiImage.imageUrls s) in
  MultiImage.handleRemove props (Some index) s
    = ((call_if (MultiImage.has_onChange props) (OnChange (VArray (VString <$> remaining)))
          ++ call_if (MultiImage.has_onSuccess props)
                     (OnSuccess (VArray (VString <$> remaining))))%list,
       {| MultiImage.modalVisible := MultiImage.modalVisible s;
          MultiImage.fileList := MultiImage.fileList s;
          MultiImage.imageUrls := remaining |})
  ∧ ((index < length (MultiImage.imageUrls s))%nat →
       length remaining = pred (length (MultiImage.imageUrls s))
       ∧ ∀ j : nat, remaining !! j
              = if decide (j < index)%nat then MultiImage.imageUrls s !! j
                else MultiImage.imageUrls s !! S j)
  ∧ ((length (MultiImage.imageUrls s) ≤ index)%nat →
       remaining = MultiImage.imageUrls s).
Proof.
  intros Hmulti remaining. split; [|split].
  - unfold MultiImage.handleRemove.
    apply Z.eqb_neq in Hmulti. rewrite Hmulti.
    by rewrite filter_index_delete0.
  - intros Hin. split.
    + subst remaining. rewrite length_delete; [lia|].
      by apply lookup_lt_is_Some.
    + intros j. subst remaining. case_decide.
      * by apply list_lookup_delete_lt.
      * apply list_lookup_delete_ge. lia.
  - intros Hout. subst remaining. by apply delete_past_end.
Qed.

Lemma handleRemove_deletes_position_witness :
  MultiImage.handleRemove
      {| MultiImage.maxCount := 3; MultiImage.has_onChange := true;
         MultiImage.has_onSuccess := false |}
      (Some 1%nat) (multi_dialog [] ["/a.png"; "/b.png"; "/c.png"])
    = ([OnChange (VArray [VString "/a.png"; VString "/c.png"])],
       multi_dialog [] ["/a.png"; "/c.png"]).
Proof.
  rewrite (proj1 (handleRemove_deletes_position
                    {| MultiImage.maxCount := 3; MultiImage.has_onChange := true;
                       MultiImage.has_onSuccess := false |}
                    (multi_dialog [] ["/a.png"; "/b.png"; "/c.png"]) 1
                    ltac:(discriminate))).
  reflexivity.
Defined.

(** In single-image mode removal ignores the position: every committed
    image is dropped and both callbacks receive the empty string. *)
Theorem handleRemove_single_clears props s (index : option nat) :
  MultiImage.maxCount props = 1%Z →
  MultiImage.handleRemove props index s
    = ((call_if (MultiImage.has_onChange props) (OnChange (VString ""))
          ++ call_if (MultiImage.has_onSuccess props) (OnSuccess (VString "")))%list,
       {| MultiImage.modalVisible := MultiImage.modalVisible s;
          MultiImage.fileList := MultiImage.fileList s;
          MultiImage.imageUrls := [] |}).
Proof. intros Hone. unfold MultiImage.handleRemove. by rewrite Hone. Qed.

Lemma handleRemove_single_clears_witness :
  MultiImage.handleRemove single_mode (Some 7%nat)
      (multi_dialog [] ["/a.png"; "/b.png"])
    = ([OnChange (VString ""); OnSuccess (VString "")], multi_dialog [] []).
Proof.
  apply (handleRemove_single_clears single_mode
           (multi_dialog [] ["/a.png"; "/b.png"]) (Some 7%nat)).
  reflexivity.
Defined.

(** X21. The number of committed images stays within [maxCount]: for a
    non-negative [maxCount], Confirm, Cancel and Remove keep
    [imageUrls.length <= maxCount], and a Confirm that commits brings the
    list within the bound even when the [value] prop had put it above. *)
Theorem committed_count_bounded props s :
  (0 ≤ MultiImage.maxCount props)%Z →
  ((Z.of_nat (length (MultiImage.imageUrls s)) ≤ MultiImage.maxCount props)%Z →
     (Z.of_nat (length (MultiImage.imageUrls (snd (MultiImage.handleConfirm props s))))
        ≤ MultiImage.maxCount props)%Z
     ∧ (Z.of_nat (length (MultiImage.imageUrls (snd (MultiImage.handleCancel s))))
        ≤ MultiImage.maxCount props)%Z
     ∧ ∀ index,
         (Z.of_nat (length (MultiImage.imageUrls
                              (snd (MultiImage.handleRemove props index s))))
            ≤ MultiImage.maxCount props)%Z)
  ∧ (List.filter uploaded (MultiImage.fileList s) ≠ [] →
     (Z.of_nat (length (MultiImage.imageUrls (snd (MultiImage.handleConfirm props s))))
        ≤ MultiImage.maxCount props)%Z).
Proof.
  intros Hpos. split.
  - intros Hinv. split; [|split].
    + unfold MultiImage.handleConfirm.
      destruct (0 <? length _)%nat; cbn [snd MultiImage.imageUrls]; [|done].
      by apply slice0_length.
    + unfold MultiImage.handleCancel. by destruct (negb _).
    + intros index. unfold MultiImage.handleRemove.
      destruct (MultiImage.maxCount props =? 1)%Z;
        cbn [snd MultiImage.imageUrls length]; [lia|].
      destruct index as [index|]; cbn [snd MultiImage.imageUrls]; [|done].
      rewrite filter_index_delete0.
      destruct (decide (index < length (MultiImage.imageUrls s))%nat).
      * rewrite length_delete by (by apply lookup_lt_is_Some). lia.
      * rewrite delete_past_end by lia. done.
  - intros Hsome. unfold MultiImage.handleConfirm.
    destruct (List.filter uploaded (MultiImage.fileList s)) as [|f fs]; [done|].
    cbn [map length Nat.ltb Nat.leb snd MultiImage.imageUrls].
    by apply slice0_length.
Qed.

Lemma committed_count_bounded_witness :
  (Z.of_nat (length (MultiImage.imageUrls
                       (snd (MultiImage.handleConfirm single_mode
                               (multi_dialog [entry "rc-1" Done (Some "/img/new.png")]
                                             ["/a.png"; "/b.png"]))))) ≤ 1)%Z.
Proof.
  apply (proj2 (committed_count_bounded single_mode
                  (multi_dialog [entry "rc-1" Done (Some "/img/new.png")]
                                ["/a.png"; "/b.png"])
                  ltac:(discriminate))).
  discriminate.
Defined.

Lemma uploaded_iff_url file :
  uploaded file = true ↔ ∃ u, uploaded_url file = Some u.
Proof.
  unfold uploaded, uploaded_url, has_url.
  destruct (status file), (url file) as [u|]; cbn; try (split; [done|by intros [? ?]]).
  destruct (String.eqb u ""); cbn; [split; [done|by intros [? ?]]|].
  split; [by exists u|done].
Qed.

Lemma collected_urls fileList :
  map (fun file => default EmptyString (url file)) (List.filter uploaded fileList)
    = uploaded_urls fileList.
Proof.
  unfold uploaded_urls.
  induction fileList as [|file fileList IH]; [done|].
  cbn [List.filter omap list_omap].
  destruct (uploaded file) eqn:Hup.
  - apply uploaded_iff_url in Hup as [u Hu]. rewrite Hu. cbn [map].
    f_equal; [|exact IH].
    unfold uploaded_url in Hu. destruct (status file), (url file) as [u'|]; try done.
    cbn. by destruct (String.eqb u' ""); simplify_eq.
  - destruct (uploaded_url file) as [u|] eqn:Hu; [|exact IH].
    assert (uploaded file = true) by (apply uploaded_iff_url; eauto). congruence.
Qed.

Lemma uploaded_urls_not_empty fileList (u : string) :
  u ∈ uploaded_urls fileList → u ≠ "".
Proof.
  unfold uploaded_urls. rewrite list_elem_of_omap.
  intros (file & _ & Hu) ->. unfold uploaded_url in Hu.
  destruct (status file), (url file) as [u'|]; try done.
  destruct (String.eqb_spec u' ""); simplify_eq.
Qed.

(** X22. What Confirm commits when at least one entry is uploaded: the dialog
    closes and [fileList] is emptied, entries in error or still uploading
    included; the committed list becomes the old list followed by the URLs
    of the uploaded entries in the order of [fileList], cut to [maxCount];
    nothing is cut when they all fit; and with [maxCount] other than 1 the
    callbacks receive that list as an array, even one of a single URL. *)
Theorem confirm_appends_in_order props s :
  uploaded_urls (MultiImage.fileList s) ≠ [] →
  let all := (MultiImage.imageUrls s ++ uploaded_urls (MultiImage.fileList s))%list in
  snd (MultiImage.handleConfirm props s)
    = {| MultiImage.modalVisible := false;
         MultiImage.fileList := [];
         MultiImage.imageUrls := slice0 all (MultiImage.maxCount props) |}
  ∧ ((Z.of_nat (length all) ≤ MultiImage.maxCount props)%Z →
       MultiImage.imageUrls (snd (MultiImage.handleConfirm props s)) = all)
  ∧ (MultiImage.maxCount props ≠ 1%Z →
       fst (MultiImage.handleConfirm props s)
         = (call_if (MultiImage.has_onChange props)
              (OnChange (VArray (VString <$> slice0 all (MultiImage.maxCount props))))
            ++ call_if (MultiImage.has_onSuccess props)
              (OnSuccess (VArray (VString <$> slice0 all (MultiImage.maxCount props)))))%list).
Proof.
  intros Hsome all. unfold MultiImage.handleConfirm.
  rewrite collected_urls. fold all.
  destruct (uploaded_urls (MultiImage.fileList s)) as [|u us] eqn:Hus; [done|].
  cbn [length Nat.ltb Nat.leb snd fst MultiImage.imageUrls].
  split; [done|]. split.
  - intros Hfit. by apply slice0_fits.
  - intros Hmulti. apply Z.eqb_neq in Hmulti. by rewrite Hmulti.
Qed.

Lemma confirm_appends_in_order_witness :
  MultiImage.imageUrls
      (snd (MultiImage.handleConfirm
              {| MultiImage.maxCount := 3; MultiImage.has_onChange := true;
                 MultiImage.has_onSuccess := true |}
              (multi_dialog [entry "rc-1" Done (Some "/b.png");
                             entry "rc-2" Error None;
                             entry "rc-3" Done (Some "/c.png")] ["/a.png"])))
    = ["/a.png"; "/b.png"; "/c.png"].
Proof.
  apply (proj1 (proj2 (confirm_appends_in_order
                         {| MultiImage.maxCount := 3; MultiImage.has_onChange := true;
                            MultiImage.has_onSuccess := true |}
                         (multi_dialog [entry "rc-1" Done (Some "/b.png");
                                        entry "rc-2" Error None;
                                        entry "rc-3" Done (Some "/c.png")] ["/a.png"])
                         ltac:(discriminate)))).
  cbn. lia.
Defined.

(** X23. The parent echoing the reported value back changes nothing: whenever
    Confirm or Remove calls [onChange] / [onSuccess] with a value, setting
    the [value] prop to that value leaves the committed list as the handler
    set it (for Confirm in single-image mode, provided the image committed
    before, if any, is not the empty string). *)
Theorem reported_value_echoes props s :
  (uploaded_urls (MultiImage.fileList s) ≠ [] →
   (MultiImage.maxCount props = 1%Z →
      ∀ u, head (MultiImage.imageUrls s) = Some u → u ≠ "") →
   ∃ v : UrlValue,
     fst (MultiImage.handleConfirm props s)
       = (call_if (MultiImage.has_onChange props) (OnChange (UrlValue_to_value v))
          ++ call_if (MultiImage.has_onSuccess props) (OnSuccess (UrlValue_to_value v)))%list
     ∧ MultiImage.syncValue v (snd (MultiImage.handleConfirm props s))
       = snd (MultiImage.handleConfirm props s))
  ∧ (∀ index : option nat,
       MultiImage.maxCount props = 1%Z ∨ index ≠ None →
       ∃ v : UrlValue,
         fst (MultiImage.handleRemove props index s)
           = (call_if (MultiImage.has_onChange props) (OnChange (UrlValue_to_value v))
              ++ call_if (MultiImage.has_onSuccess props)
                         (OnSuccess (UrlValue_to_value v)))%list
         ∧ MultiImage.syncValue v (snd (MultiImage.handleRemove props index s))
           = snd (MultiImage.handleRemove props index s)).
Proof.
  split.
  - intros Hsome Hhead.
    pose proof (uploaded_urls_not_empty (MultiImage.fileList s)) as Hnew.
    unfold MultiImage.handleConfirm. rewrite collected_urls.
    destruct (uploaded_urls (MultiImage.fileList s)) as [|u us] eqn:Hus; [done|].
    cbn [length Nat.ltb Nat.leb snd fst].
    destruct (Z.eqb_spec (MultiImage.maxCount props) 1) as [Hone|Hmulti].
    + rewrite Hone. unfold slice0. cbn [Z.ltb Z.compare Z.to_nat Pos.to_nat Pos.iter_op].
      destruct (MultiImage.imageUrls s) as [|old olds] eqn:Hold; cbn [app take].
      * exists (OneUrl u). split; [done|].
        unfold MultiImage.syncValue. cbn.
        assert (u ≠ "") as Hu by (apply Hnew; left).
        by apply String.eqb_neq in Hu as ->.
      * exists (OneUrl old). split; [done|].
        unfold MultiImage.syncValue. cbn.
        assert (old ≠ "") as Hu by (by apply Hhead).
        by apply String.eqb_neq in Hu as ->.
    + by exists (ManyUrls (slice0 (MultiImage.imageUrls s ++ u :: us)
                                   (MultiImage.maxCount props))).
  - intros index Hcalls. unfold MultiImage.handleRemove.
    destruct (Z.eqb_spec (MultiImage.maxCount props) 1) as [Hone|Hmulti].
    + by exists (OneUrl "").
    + destruct Hcalls as [?|Hidx]; [done|].
      destruct index as [index|]; [|done].
      by exists (ManyUrls (filter_index (fun i => negb (Nat.eqb i index)) 0
                             (MultiImage.imageUrls s))).
Qed.

Lemma reported_value_echoes_witness :
  ∃ v : UrlValue,
    fst (MultiImage.handleRemove single_mode None (multi_dialog [] ["/a.png"]))
      = [OnChange (UrlValue_to_value v); OnSuccess (UrlValue_to_value v)]
    ∧ MultiImage.syncValue v
        (snd (MultiImage.handleRemove single_mode None (multi_dialog [] ["/a.png"])))
      = snd (MultiImage.handleRemove single_mode None (multi_dialog [] ["/a.png"])).
Proof.
  apply (proj2 (reported_value_echoes single_mode (multi_dialog [] ["/a.png"])) None).
  left. reflexivity.
Defined.

Lemma uploaded_url_with_response (file : ChangedFile) :
  uploaded_url (with_response_url file) = response_or_own_url file.
Proof.
  unfold with_response_url, response_or_own_url, is_done.
  destruct (response_url file) as [u|]; [|by destruct (status (changed file))].
  destruct (status (changed file)) eqn:Hs; cbn [status_eqb andb]; try done.
  destruct (String.eqb u "") eqn:Hu; cbn [negb]; [done|].
  unfold uploaded_url. cbn. by rewrite Hu.
Qed.

Lemma uploaded_urls_with_response (info : list ChangedFile) :
  uploaded_urls (map with_response_url info) = omap response_or_own_url info.
Proof.
  unfold uploaded_urls. induction info as [|file info IH]; [done|].
  cbn [map omap list_omap]. by rewrite uploaded_url_with_response, IH.
Qed.

(** X24. From the upload control's report to the committed value: Confirm right
    after [onChange] commits, for the [done] entries in their order, the
    url of the upload response when there is a non-empty one and the
    entry's own url otherwise; entries that are not [done] add nothing, and
    [onChange] itself leaves the committed list and the dialog alone. *)
Theorem onChange_then_confirm props (info : list ChangedFile) s :
  MultiImage.imageUrls (MultiImage.onChange info s) = MultiImage.imageUrls s
  ∧ MultiImage.modalVisible (MultiImage.onChange info s) = MultiImage.modalVisible s
  ∧ (omap response_or_own_url info ≠ [] →
     snd (MultiImage.handleConfirm props (MultiImage.onChange info s))
       = {| MultiImage.modalVisible := false;
            MultiImage.fileList := [];
            MultiImage.imageUrls :=
              slice0 (MultiImage.imageUrls s ++ omap response_or_own_url info)%list
                     (MultiImage.maxCount props) |})
  ∧ (omap response_or_own_url info = [] →
     MultiImage.handleConfirm props (MultiImage.onChange info s)
       = ([], MultiImage.onChange info s)).
Proof.
  split; [done|]. split; [done|]. split.
  - intros Hsome.
    unfold MultiImage.handleConfirm. cbn [MultiImage.onChange MultiImage.fileList
      MultiImage.imageUrls].
    rewrite collected_urls, uploaded_urls_with_response.
    destruct (omap response_or_own_url info) as [|u us]; done.
  - intros Hnone.
    unfold MultiImage.handleConfirm. cbn [MultiImage.onChange MultiImage.fileList
      MultiImage.imageUrls].
    by rewrite collected_urls, uploaded_urls_with_response, Hnone.
Qed.

Lemma onChange_then_confirm_witness :
  snd (MultiImage.handleConfirm single_mode
         (MultiImage.onChange
            [{| changed := entry "rc-1" Done None;
                response_url := Some "https://cdn/img/a.png" |}]
            (multi_dialog [] [])))
    = {| MultiImage.modalVisible := false;
         MultiImage.fileList := [];
         MultiImage.imageUrls := ["https://cdn/img/a.png"] |}.
Proof.
  rewrite (proj1 (proj2 (proj2 (onChange_then_confirm single_mode
             [{| changed := entry "rc-1" Done None;
                 response_url := Some "https://cdn/img/a.png" |}]
             (multi_dialog [] [])))) ltac:(discriminate)).
  reflexivity.
Defined.

(** Removing an entry in the dialog removes every entry with its uid and no
    other: the entries with another uid stay, in their order, and the
    committed images and the dialog are untouched. *)
Theorem onRemove_by_uid (removed : UploadFile) s :
  (∀ file, file ∈ MultiImage.fileList (MultiImage.onRemove removed s)
           ↔ file ∈ MultiImage.fileList s ∧ uid file ≠ uid removed)
  ∧ MultiImage.fileList (MultiImage.onRemove removed s) `sublist_of` MultiImage.fileList s
  ∧ MultiImage.imageUrls (MultiImage.onRemove removed s) = MultiImage.imageUrls s
  ∧ MultiImage.modalVisible (MultiImage.onRemove removed s) = MultiImage.modalVisible s.
Proof.
  split; [|split; [|done]].
  - intros file. cbn [MultiImage.onRemove MultiImage.fileList].
    rewrite list_elem_of_In, filter_In, <- list_elem_of_In, negb_true_iff.
    by rewrite String.eqb_neq.
  - cbn [MultiImage.onRemove MultiImage.fileList].
    induction (MultiImage.fileList s) as [|file fl IH]; [done|].
    cbn [List.filter]. destruct (negb _).
    + by apply sublist_skip.
    + by apply sublist_cons.
Qed.

Lemma find_uploaded fileList :
  List.find uploaded fileList ≫= url = head (uploaded_urls fileList)
  ∧ (∀ file, List.find uploaded fileList = Some file → has_url file = true).
Proof.
  split.
  - rewrite find_filter, <- collected_urls.
    destruct (List.filter uploaded fileList) as [|file rest] eqn:Hf; [done|].
    cbn. assert (In file (List.filter uploaded fileList)) as Hin
      by (rewrite Hf; by left).
    apply filter_In in Hin as [_ Hup]. unfold uploaded, has_url in Hup.
    apply andb_true_iff in Hup as [_ Hup]. by destruct (url file).
  - intros file [_ Hup]%find_some. unfold uploaded in Hup.
    by apply andb_true_iff in Hup as [_ ?].
Qed.

(** X25. The earlier version with a Confirm button commits one image: after the
    upload control's report, Confirm takes the first [done] entry that has
    a URL (the url of its response when not empty, else its own), replaces
    the committed image by it whatever was committed, empties [fileList]
    and closes the dialog; the URLs of further entries are dropped; and
    without such an entry nothing happens. *)
Theorem single_confirm_takes_first (props : SingleImage.Props)
    (info : list ChangedFile) (s : SingleImage.State) :
  SingleImage.handleConfirm props (SingleImage.onChange info s)
    = match head (omap response_or_own_url info) with
      | Some u =>
          ((call_if (SingleImage.has_onChange props) (OnChange (VString u))
              ++ call_if (SingleImage.has_onSuccess props) (OnSuccess (VString u)))%list,
           {| SingleImage.modalVisible := false;
              SingleImage.fileList := [];
              SingleImage.imageUrl := Some u |})
      | None => ([], SingleImage.onChange info s)
      end.
Proof.
  unfold SingleImage.handleConfirm.
  cbn [SingleImage.onChange SingleImage.fileList].
  destruct (find_uploaded (map with_response_url info)) as [Hhead Hurl].
  rewrite uploaded_urls_with_response in Hhead. rewrite <- Hhead.
  destruct (List.find uploaded (map with_response_url info)) as [file|]; [|done].
  specialize (Hurl file eq_refl). unfold has_url in Hurl. cbn [mbind option_bind].
  destruct (url file) as [u|]; [|done]. by rewrite Hurl.
Qed.

End Committed.

(* ===================================================================== *)
(** ** Uploading one file                                                 *)
(* ===================================================================== *)

Section Uploads.

Implicit Types (API_URL : string) (opts : RequestOption) (outcome : UploadOutcome).
Implicit Types (response : UploadResponse) (error reason : value).

Lemma append_not_empty (a b : string) : b ≠ "" → (a ++ b)%string ≠ "".
Proof. intros Hb. destruct a; [done|]. discriminate. Qed.

Lemma prefixed_url_not_empty API_URL (d : UploadData) (url : string) :
  prefixed_url API_URL d = Some url → url ≠ "".
Proof.
  destruct d as [|path|]; cbn; [done| |].
  - destruct (String.eqb_spec path ""); [done|].
    intros [= <-]. by apply append_not_empty.
  - intros [= <-]. by apply append_not_empty.
Qed.

Lemma error_text_truthy error : truthy (error_text error) = true.
Proof.
  unfold error_text. generalize (js_or (optional_get error "errorMessage")
                                        (optional_get error "message")).
  intros v. unfold js_or. by destruct (truthy v) eqn:Hv.
Qed.

(** X26. One upload has one result.  Either the call resolved with a truthy
    [success] and a truthy [data]: then no message is shown, [onError] is
    not called, and [onSuccess] receives the response with a non-empty url,
    the concatenation of [API_URL] and the data.  Or one error message with
    a non-empty text is shown and [onError] receives the error, with no
    call to [onSuccess] and no progress of 100. *)
Theorem handleUpload_one_result API_URL opts outcome :
  (∃ response url,
      outcome = UploadResolves response
      ∧ upload_success response = Some true
      ∧ prefixed_url API_URL (upload_data response) = Some url
      ∧ url ≠ ""
      ∧ handleUpload API_URL opts outcome
        = (when (has_onProgress opts) (Progress 0)
           ++ when (has_onProgress opts) (Progress 100)
           ++ when (has_onUploadSuccess opts) (UploadSucceeded response (Some url)))%list)
  ∨ (∃ error,
      handleUpload API_URL opts outcome
        = (when (has_onProgress opts) (Progress 0)
           ++ [ShowError (error_text error)]
           ++ when (has_onError opts) (UploadFailed error))%list
      ∧ truthy (error_text error) = true
      ∧ match outcome with
        | UploadResolves response =>
            error = new_Error (str_or (upload_errorMessage response) "上传失败")
            ∧ (upload_success response ≠ Some true
               ∨ prefixed_url API_URL (upload_data response) = None)
        | UploadRejects reason => error = reason
        end).
Proof.
  unfold handleUpload, upload_catch.
  destruct outcome as [response|reason].
  - unfold success_truthy.
    destruct (upload_success response) as [[]|] eqn:Hs.
    + destruct (prefixed_url API_URL (upload_data response)) as [url|] eqn:Hurl.
      * left. exists response, url.
        pose proof (prefixed_url_not_empty _ _ _ Hurl). done.
      * right. eexists. split; [done|]. split; [apply error_text_truthy|]. auto.
    + right. eexists. split; [done|]. split; [apply error_text_truthy|].
      split; [done|]. by left.
    + right. eexists. split; [done|]. split; [apply error_text_truthy|].
      split; [done|]. by left.
  - right. exists reason. split; [done|]. split; [apply error_text_truthy|done].
Qed.

(** X27. The text of the error message.  A response without success shows its
    [errorMessage] when that is a non-empty string and the fixed text
    otherwise.  A rejection with an object as reason shows the reason's
    [errorMessage] field when that is truthy, else its [message] field
    when that is truthy, else the retry text; a reason that is not an
    object ([null], [undefined], a primitive, an array) shows the retry
    text. *)
Theorem error_text_choice :
  (∀ response,
      error_text (new_Error (str_or (upload_errorMessage response) "上传失败"))
        = VString (str_or (upload_errorMessage response) "上传失败"))
  ∧ (∀ (o : gmap string value) (v : value),
      o !! "errorMessage" = Some v → truthy v = true →
      error_text (VObject o) = v)
  ∧ (∀ (o : gmap string value) (v : value),
      truthy (default VUndefined (o !! "errorMessage")) = false →
      o !! "message" = Some v → truthy v = true →
      error_text (VObject o) = v)
  ∧ (∀ o : gmap string value,
      truthy (default VUndefined (o !! "errorMessage")) = false →
      truthy (default VUndefined (o !! "message")) = false →
      error_text (VObject o) = VString "上传失败，请重试")
  ∧ (∀ reason, (∀ o, reason ≠ VObject o) →
      error_text reason = VString "上传失败，请重试").
Proof.
  split; [|split; [|split; [|split]]].
  - intros response. unfold error_text, new_Error, optional_get, js_or. cbn.
    rewrite lookup_insert_ne, lookup_empty, lookup_insert_eq by done. cbn.
    destruct (upload_errorMessage response) as [[|c m]|]; reflexivity.
  - intros o v Hv Htrue. unfold error_text, optional_get, js_or. cbn.
    rewrite Hv. cbn. by rewrite !Htrue.
  - intros o v Hfalsy Hv Htrue. unfold error_text, optional_get, js_or. cbn.
    rewrite Hfalsy, Hv. cbn. by rewrite Htrue.
  - intros o Hfalsy1 Hfalsy2. unfold error_text, optional_get, js_or. cbn.
    by rewrite Hfalsy1, Hfalsy2.
  - intros reason Hprim. unfold error_text, optional_get, js_or.
    destruct reason as [| | | | |xs|o]; try done.
    by destruct (Hprim o).
Qed.

Lemma error_text_choice_witness :
  error_text (VObject (<["errorMessage" := VString "disk full"]> ∅)) = VString "disk full"
  ∧ error_text (VObject ∅) = VString "上传失败，请重试"
  ∧ error_text VNull = VString "上传失败，请重试".
Proof.
  split; [|split].
  - apply (proj1 (proj2 error_text_choice) _ (VString "disk full")); reflexivity.
  - apply (proj1 (proj2 (proj2 (proj2 error_text_choice)))); reflexivity.
  - apply (proj2 (proj2 (proj2 (proj2 error_text_choice)))). discriminate.
Defined.

(** X28. From a successful upload to the committed value, in single-image mode
    with nothing committed: once the upload control reports the entry as
    [done] with the response of [handleUpload], Confirm commits
    [API_URL + data], reports it as a bare string, and closes the dialog. *)
Theorem upload_then_confirm API_URL opts response (path uid : string)
    (props : MultiImage.Props) (s : MultiImage.State) (own : option string) :
  upload_success response = Some true →
  upload_data response = DataString path →
  path ≠ "" →
  MultiImage.maxCount props = 1%Z →
  MultiImage.imageUrls s = [] →
  let url := (API_URL ++ path)%string in
  handleUpload API_URL opts (UploadResolves response)
    = (when (has_onProgress opts) (Progress 0)
       ++ when (has_onProgress opts) (Progress 100)
       ++ when (has_onUploadSuccess opts) (UploadSucceeded response (Some url)))%list
  ∧ MultiImage.handleConfirm props
      (MultiImage.onChange [{| changed := entry uid Done own;
                               response_url := Some url |}] s)
    = ((call_if (MultiImage.has_onChange props) (OnChange (VString url))
          ++ call_if (MultiImage.has_onSuccess props) (OnSuccess (VString url)))%list,
       {| MultiImage.modalVisible := false;
          MultiImage.fileList := [];
          MultiImage.imageUrls := [url] |}).
Proof.
  intros Hs Hd Hpath Hone Hnone url.
  assert (url ≠ "") as Hurl by (by apply append_not_empty).
  apply String.eqb_neq in Hurl, Hpath.
  split.
  - unfold handleUpload, success_truthy. rewrite Hs, Hd. cbn. by rewrite Hpath.
  - unfold MultiImage.handleConfirm, MultiImage.onChange, uploaded, has_url,
      with_response_url, is_done.
    cbn. rewrite Hurl. cbn. rewrite Hurl. cbn. by rewrite Hone, Hnone.
Qed.

Lemma upload_then_confirm_witness :
  MultiImage.handleConfirm single_mode
      (MultiImage.onChange
         [{| changed := entry "rc-1" Done None;
             response_url := Some "https://cdn/upload/a.png" |}]
         (multi_dialog [] []))
    = ([OnChange (VString "https://cdn/upload/a.png");
        OnSuccess (VString "https://cdn/upload/a.png")],
       {| MultiImage.modalVisible := false;
          MultiImage.fileList := [];
          MultiImage.imageUrls := ["https://cdn/upload/a.png"] |}).
Proof.
  apply (proj2 (upload_then_confirm "https://cdn"
                  {| has_onUploadSuccess := true; has_onError := true;
                     has_onProgress := true |}
                  {| upload_success := Some true;
                     upload_data := DataString "/upload/a.png";
                     upload_errorMessage := None |}
                  "/upload/a.png" "rc-1" single_mode (multi_dialog [] []) None
                  eq_refl eq_refl ltac:(discriminate) eq_refl eq_refl)).
Defined.

(** X29. The version that commits at once.  When the call settles,
    [uploading] is off again in every case.  Exactly when the call resolved
    with a truthy [success] and a non-empty [data.url], that url is
    committed, [fileList] emptied, the dialog closed, and the user,
    [onChange], [onSuccess] and the upload control are told, in this order.
    In every other case (a rejection, no success, no [data.url]) one error
    message is shown, [onError] receives the error, and the committed
    image, [fileList] and the dialog stay as they were. *)
Theorem auto_commit_settles (props : AutoCommit.Props) opts outcome
    (s : AutoCommit.State) :
  AutoCommit.uploading (snd (AutoCommit.handleUpload_settle props opts outcome s)) = false
  ∧ ((∃ response url,
        outcome = UploadResolves response
        ∧ upload_success response = Some true
        ∧ upload_data response = DataObject (Some url)
        ∧ url ≠ ""
        ∧ AutoCommit.handleUpload_settle props opts outcome s
          = (([ShowSuccess "上传成功"]
                ++ when (AutoCommit.has_onChange props) (Changed url)
                ++ when (AutoCommit.has_onSuccess props) (Succeeded url)
                ++ when (has_onUploadSuccess opts) (UploadSucceeded response None))%list,
             {| AutoCommit.modalVisible := false;
                AutoCommit.fileList := [];
                AutoCommit.uploading := false;
                AutoCommit.imageUrl := Some url |}))
     ∨ (∃ error,
        AutoCommit.handleUpload_settle props opts outcome s
          = (([ShowError (error_text error)]
                ++ when (has_onError opts) (UploadFailed error))%list,
             {| AutoCommit.modalVisible := AutoCommit.modalVisible s;
                AutoCommit.fileList := AutoCommit.fileList s;
                AutoCommit.uploading := false;
                AutoCommit.imageUrl := AutoCommit.imageUrl s |})
        ∧ match outcome with
          | UploadResolves response =>
              error = new_Error (str_or (upload_errorMessage response) "上传失败")
              ∧ (upload_success response ≠ Some true
                 ∨ ∀ url, upload_data response = DataObject (Some url) → url = "")
          | UploadRejects reason => error = reason
          end)).
Proof.
  unfold AutoCommit.handleUpload_settle, upload_catch, success_truthy.
  destruct outcome as [response|reason];
    [|split; [done|right; by eexists]].
  destruct (upload_success response) as [[]|] eqn:Hs.
  - destruct (upload_data response) as [|path|[u|]] eqn:Hd; cbn [data_url_of].
    + split; [done|]. right. eexists. split; [done|]. split; [done|]. by right.
    + split; [done|]. right. eexists. split; [done|]. split; [done|]. by right.
    + destruct (String.eqb_spec u "") as [->|Hu].
      * split; [done|]. right. eexists. split; [done|]. split; [done|].
        right. by intros url [= <-].
      * split; [done|]. left. by exists response, u.
    + split; [done|]. right. eexists. split; [done|]. split; [done|]. by right.
  - split; [done|]. right. eexists. split; [done|]. split; [done|]. by left.
  - split; [done|]. right. eexists. split; [done|]. split; [done|]. by left.
Qed.

(** X30. The two contracts exclude each other.  A response whose [data] is a
    string, as the upload service declares it, never commits in the version
    that commits at once: it ends in the error branch.  A response whose
    [data] is an object with a url, which that version needs, makes the
    other versions report [API_URL] followed by the text
    [[object Object]], not the url. *)
Theorem data_contracts_exclude_each_other API_URL (props : AutoCommit.Props) opts
    response (s : AutoCommit.State) :
  (upload_data response = NoData ∨ (∃ path, upload_data response = DataString path) →
     ∃ error,
       AutoCommit.handleUpload_settle props opts (UploadResolves response) s
         = (([ShowError (error_text error)]
               ++ when (has_onError opts) (UploadFailed error))%list,
            {| AutoCommit.modalVisible := AutoCommit.modalVisible s;
               AutoCommit.fileList := AutoCommit.fileList s;
               AutoCommit.uploading := false;
               AutoCommit.imageUrl := AutoCommit.imageUrl s |}))
  ∧ (∀ u, upload_success response = Some true →
          upload_data response = DataObject u →
          handleUpload API_URL opts (UploadResolves response)
            = (when (has_onProgress opts) (Progress 0)
               ++ when (has_onProgress opts) (Progress 100)
               ++ when (has_onUploadSuccess opts)
                    (UploadSucceeded response
                       (Some (API_URL ++ "[object Object]")%string)))%list).
Proof.
  split.
  - intros Hdata. unfold AutoCommit.handleUpload_settle, upload_catch.
    assert (data_url_of (upload_data response) = None) as Hnone
      by (by destruct Hdata as [-> | [path ->]]).
    rewrite Hnone. eexists. by destruct (success_truthy response).
  - intros u Hs Hd. unfold handleUpload, success_truthy. by rewrite Hs, Hd.
Qed.

Lemma data_contracts_witness :
  ∃ error,
    AutoCommit.handleUpload_settle
        {| AutoCommit.has_onChange := true; AutoCommit.has_onSuccess := true |}
        {| has_onUploadSuccess := true; has_onError := true; has_onProgress := true |}
        (UploadResolves {| upload_success := Some true;
                           upload_data := DataString "/upload/a.png";
                           upload_errorMessage := None |})
        {| AutoCommit.modalVisible := true; AutoCommit.fileList := [];
           AutoCommit.uploading := true; AutoCommit.imageUrl := None |}
      = ([ShowError (error_text error); UploadFailed error],
         {| AutoCommit.modalVisible := true; AutoCommit.fileList := [];
            AutoCommit.uploading := false; AutoCommit.imageUrl := None |}).
Proof.
  apply (proj1 (data_contracts_exclude_each_other ""
                  {| AutoCommit.has_onChange := true; AutoCommit.has_onSuccess := true |}
                  {| has_onUploadSuccess := true; has_onError := true;
                     has_onProgress := true |}
                  {| upload_success := Some true;
                     upload_data := DataString "/upload/a.png";
                     upload_errorMessage := None |}
                  {| AutoCommit.modalVisible := true; AutoCommit.fileList := [];
                     AutoCommit.uploading := true; AutoCommit.imageUrl := None |})).
  right. by exists "/upload/a.png".
Defined.

End Uploads.
